(** * Spark UI exposure: port resolution, service and ingress provisioning

    A shallow embedding of
    [pkg/controller/sparkapplication/sparkui.go] of the Spark operator,
    together with the parts of the Go standard library it calls
    ([strconv.Atoi], [regexp.ReplaceAllString] for the two placeholder
    patterns, [net/url.Parse], [fmt.Errorf] with a [%d] verb).

    Conventions.
    - A Go [string] is a sequence of bytes: [string] of [ascii].
    - A Go integer of [w] bits is a [Z] with its wrap-around written out.
    - A Go [map[string]string] is a [gmap string string]; where the code
      tells a nil map from an empty one the field is an [option] of it.
    - A Go [(value, error)] result is a pair with an [option error], or a
      [Result] where the value is a pointer that is nil on error. *)

From Stdlib Require Import ZArith String Ascii List Bool Lia.
From stdpp Require Import base option gmap strings pretty.

Open Scope string_scope.
Open Scope Z_scope.

(** ** Bytes and machine integers *)

Module Go.

(** The numeric value of a byte. *)
Definition byte_val (c : ascii) : Z := Z.of_N (N_of_ascii c).

Definition byte_of (z : Z) : ascii := ascii_of_N (Z.to_N (z mod 256)).

(** [c1 <= c && c <= c2] on bytes. *)
Definition between (c1 c c2 : ascii) : bool :=
  (byte_val c1 <=? byte_val c) && (byte_val c <=? byte_val c2).

(** Conversion to an unsigned integer of [w] bits. *)
Definition wrap_unsigned (w : Z) (z : Z) : Z := z mod 2 ^ w.

(** Conversion to a signed (two's complement) integer of [w] bits. *)
Definition wrap_signed (w : Z) (z : Z) : Z :=
  (z + 2 ^ (w - 1)) mod 2 ^ w - 2 ^ (w - 1).

Definition int32 (z : Z) : Z := wrap_signed 32 z.
Definition int64 (z : Z) : Z := wrap_signed 64 z.
Definition uint64 (z : Z) : Z := wrap_unsigned 64 z.

(** The platform's [int]: 32 or 64 bits ([strconv.IntSize]). *)
Inductive Arch := Arch32 | Arch64.

Definition IntSize (a : Arch) : Z :=
  match a with Arch32 => 32 | Arch64 => 64 end.

Definition int (a : Arch) (z : Z) : Z := wrap_signed (IntSize a) z.

(** [len(s)] *)
Definition len (s : string) : Z := Z.of_nat (String.length s).

(** Go errors that this code can produce or pass on. *)
Inductive numErr := ErrSyntax | ErrRange.

Inductive error :=
| NumError (Func Num : string) (Err : numErr)  (* *strconv.NumError *)
| errorString (s : string)                     (* errors.New, fmt.Errorf *)
| EscapeError (s : string)                     (* url.EscapeError *)
| InvalidHostError (s : string)                (* url.InvalidHostError *)
| urlError (Op URL : string) (Err : error)     (* *url.Error *)
| errorf (format arg : string)                 (* fmt.Errorf(format, arg), not yet formatted *)
| StatusError (reason message : string).       (* the API client's errors *)

(** A pointer result with an error: [(p, nil)], [(nil, err)], or a
    run-time panic. *)
Inductive Result (A : Type) :=
| Ok (a : A)
| Err (e : error)
| Panic (msg : string).
Arguments Ok {A} a.
Arguments Err {A} e.
Arguments Panic {A} msg.

End Go.
Export Go.

(** ** package strings (the functions used below, separators of one byte) *)

Module Strings.

(** [strings.HasPrefix(s, prefix)] *)
Fixpoint HasPrefix (s prefix : string) : bool :=
  match prefix, s with
  | EmptyString, _ => true
  | String p prefix', String c s' => Ascii.eqb p c && HasPrefix s' prefix'
  | String _ _, EmptyString => false
  end.

(** [strings.IndexByte(s, c) >= 0] *)
Fixpoint ContainsByte (s : string) (c : ascii) : bool :=
  match s with
  | EmptyString => false
  | String x s' => Ascii.eqb x c || ContainsByte s' c
  end.

(** [strings.Count(s, string(c))] *)
Fixpoint CountByte (s : string) (c : ascii) : Z :=
  match s with
  | EmptyString => 0
  | String x s' => (if Ascii.eqb x c then 1 else 0) + CountByte s' c
  end.

(** [strings.Cut(s, string(sep))]: the text before and after the first
    [sep], and whether [sep] was found. *)
Fixpoint Cut (s : string) (sep : ascii) : string * string * bool :=
  match s with
  | EmptyString => (EmptyString, EmptyString, false)
  | String x s' =>
      if Ascii.eqb x sep then (EmptyString, s', true)
      else let '(before, after, found) := Cut s' sep in
           (String x before, after, found)
  end.

(** [strings.LastIndex(s, string(sep))] as a split: [None] when [sep] does
    not occur, otherwise [s[:i]] and [s[i+1:]] for the last index [i]. *)
Fixpoint CutLast (s : string) (sep : ascii) : option (string * string) :=
  match s with
  | EmptyString => None
  | String x s' =>
      match CutLast s' sep with
      | Some (before, after) => Some (String x before, after)
      | None => if Ascii.eqb x sep then Some (EmptyString, s') else None
      end
  end.

(** [strings.HasSuffix(s, string(c))] *)
Fixpoint HasSuffixByte (s : string) (c : ascii) : bool :=
  match s with
  | EmptyString => false
  | String x EmptyString => Ascii.eqb x c
  | String _ s' => HasSuffixByte s' c
  end.

(** [s[:len(s)-1]] *)
Fixpoint dropLast (s : string) : string :=
  match s with
  | EmptyString => EmptyString
  | String _ EmptyString => EmptyString
  | String x s' => String x (dropLast s')
  end.

(** [strings.ToLower] on ASCII letters. *)
Definition lowerByte (c : ascii) : ascii :=
  if between "A" c "Z" then byte_of (byte_val c + 32) else c.

Fixpoint ToLower (s : string) : string :=
  match s with
  | EmptyString => EmptyString
  | String c s' => String (lowerByte c) (ToLower s')
  end.

(** [strings.Contains(s, sub)] *)
Fixpoint Contains (s sub : string) : bool :=
  HasPrefix s sub ||
  match s with
  | EmptyString => false
  | String _ s' => Contains s' sub
  end.

(** [s[:n]] and [s[n:]] *)
Fixpoint take (n : nat) (s : string) : string :=
  match n, s with
  | S n, String c s' => String c (take n s')
  | _, _ => EmptyString
  end.

Fixpoint drop (n : nat) (s : string) : string :=
  match n, s with
  | S n, String _ s' => drop n s'
  | _, _ => s
  end.

End Strings.

(** ** package strconv: [Atoi] *)

Module Strconv.

Section WithArch.
Variable arch : Arch.

Definition syntaxError (fn str : string) : error := NumError fn str ErrSyntax.
Definition rangeError (fn str : string) : error := NumError fn str ErrRange.

(** The digit loop of [Atoi]'s fast path: [ch -= '0'; if ch > 9 {
    syntax error }; n = n*10 + int(ch)].  [None] is the syntax error. *)
Fixpoint atoiLoop (n : Z) (s : string) : option Z :=
  match s with
  | EmptyString => Some n
  | String ch s' =>
      let ch := (byte_val ch - byte_val "0") mod 256 in
      if ch >? 9 then None
      else atoiLoop (int arch (n * 10 + ch)) s'
  end.

Definition isSign (c : ascii) : bool := Ascii.eqb c "-" || Ascii.eqb c "+".

(** [lower(c)]: [c | ('x' - 'X')]. *)
Definition lower (c : ascii) : Z := Z.lor (byte_val c) 32.

Definition maxUint64 : Z := 2 ^ 64 - 1.

(** The digit loop of [ParseUint(s, 10, bitSize)]; the result is the
    pair that [ParseUint] returns. *)
Fixpoint parseUintLoop (maxVal : Z) (n : Z) (s : string) : Z * option numErr :=
  match s with
  | EmptyString => (n, None)
  | String c s' =>
      let d :=
        if between "0" c "9" then Some (byte_val c - byte_val "0")
        else if (byte_val "a" <=? lower c) && (lower c <=? byte_val "z")
             then Some (lower c - byte_val "a" + 10)
             else None in
      match d with
      | None => (0, Some ErrSyntax)
      | Some d =>
          if d >=? 10 then (0, Some ErrSyntax)
          else if n >=? maxUint64 / 10 + 1 then (maxVal, Some ErrRange)
          else
            let n := uint64 (n * 10) in
            let n1 := uint64 (n + d) in
            if (n1 <? n) || (n1 >? maxVal) then (maxVal, Some ErrRange)
            else parseUintLoop maxVal n1 s'
      end
  end.

(** [ParseUint(s, 10, 0)] *)
Definition ParseUint (s : string) : Z * option numErr :=
  match s with
  | EmptyString => (0, Some ErrSyntax)
  | _ => parseUintLoop (2 ^ IntSize arch - 1) 0 s
  end.

(** [ParseInt(s, 10, 0)] *)
Definition ParseInt (s : string) : Z * option numErr :=
  match s with
  | EmptyString => (0, Some ErrSyntax)
  | String c s' =>
      let neg := Ascii.eqb c "-" in
      let s1 := if Ascii.eqb c "+" || neg then s' else s in
      match ParseUint s1 with
      | (_, Some ErrSyntax) => (0, Some ErrSyntax)
      | (un, _) =>
          let cutoff := 2 ^ (IntSize arch - 1) in
          if negb neg && (un >=? cutoff) then (int64 (cutoff - 1), Some ErrRange)
          else if neg && (un >? cutoff) then (int64 (- int64 cutoff), Some ErrRange)
          else
            let n := int64 un in
            (if neg then int64 (- n) else n, None)
      end
  end.

(** [strconv.Atoi(s)] *)
Definition Atoi (s : string) : Z * option error :=
  let sLen := len s in
  if ((IntSize arch =? 32) && ((0 <? sLen) && (sLen <? 10)))
     || ((IntSize arch =? 64) && ((0 <? sLen) && (sLen <? 19)))
  then
    (* Fast path for small integers that fit int type. *)
    match s with
    | EmptyString => (0, Some (syntaxError "Atoi" s))
    | String c0 s' =>
        let s1 := if isSign c0 then s' else s in
        if isSign c0 && (len s1 <? 1) then (0, Some (syntaxError "Atoi" s))
        else
          match atoiLoop 0 s1 with
          | None => (0, Some (syntaxError "Atoi" s))
          | Some n => (if Ascii.eqb c0 "-" then int arch (- n) else n, None)
          end
    end
  else
    (* Slow path for invalid, big, or underscored integers. *)
    match ParseInt s with
    | (i64, Some e) => (int arch i64, Some (NumError "Atoi" s e))
    | (i64, None) => (int arch i64, None)
    end.

End WithArch.

End Strconv.

(** ** package fmt: the [%d] verb *)

Module Fmt.

(** [fmt.Sprintf("%d", n)]: the decimal digits of [n], with a leading
    ["-"] when [n] is negative. *)
Definition Sprintd (n : Z) : string := pretty n.

(** [fmt.Errorf(prefix + "%d", n)] *)
Definition Errorf_d (prefix : string) (n : Z) : error :=
  errorString (prefix +:+ Sprintd n).

End Fmt.

(** ** The Kubernetes objects this file builds and reads *)

(** [k8s.io/apimachinery/pkg/util/intstr] *)
Module intstr.
Inductive Kind := Int | String.
(** The field [Type] is [Type_] here ([Type] is reserved). *)
Record IntOrString := { Type_ : Kind; IntVal : Z; StrVal : string }.
End intstr.

(** [k8s.io/apimachinery/pkg/apis/meta/v1]: the fields that are set or
    read here. A nil map is [None]. *)
Module metav1.
Record OwnerReference := {
  APIVersion : string;
  Kind : string;
  OwnerName : string;
  UID : string;
  Controller : option bool
}.
Record ObjectMeta := {
  Name : string;
  Namespace : string;
  Labels : option (gmap string string);
  Annotations : option (gmap string string);
  OwnerReferences : list OwnerReference
}.
End metav1.

(** [k8s.io/api/core/v1] *)
Module apiv1.
Record ServicePort := {
  Name : string;
  Port : Z;
  TargetPort : intstr.IntOrString
}.
Record ServiceSpec := {
  Ports : list ServicePort;
  Selector : option (gmap string string);
  ClusterIP : string;
  Type_ : string    (* the field [Type], an [apiv1.ServiceType] *)
}.
Record Service := {
  ObjectMeta : metav1.ObjectMeta;
  Spec : ServiceSpec
}.
End apiv1.

(** [k8s.io/api/extensions/v1beta1] *)
Module extensions.
Record IngressTLS := { Hosts : list string; SecretName : string }.
Record IngressBackend := {
  ServiceName : string;
  ServicePort : intstr.IntOrString
}.
Record HTTPIngressPath := { Path : string; Backend : IngressBackend }.
Record HTTPIngressRuleValue := { Paths : list HTTPIngressPath }.
Record IngressRule := { Host : string; HTTP : option HTTPIngressRuleValue }.
Record IngressSpec := {
  TLS : option (list IngressTLS);
  Rules : list IngressRule
}.
Record Ingress := {
  ObjectMeta : metav1.ObjectMeta;
  Spec : IngressSpec
}.
End extensions.

(** [pkg/apis/sparkoperator.k8s.io/v1beta2]: the fields of the application
    that [sparkui.go] reads itself. *)
Module v1beta2.
Record SparkUIConfiguration := {
  ServicePort : option Z;            (* *int32 *)
  ServicePortName : option string    (* *string *)
}.
Record SparkApplicationSpec := {
  SparkConf : gmap string string;
  SparkUIOptions : option SparkUIConfiguration
}.
Record SparkApplication := {
  Name : string;
  Namespace : string;
  Spec : SparkApplicationSpec
}.
End v1beta2.

(** [len(m)] of a map that may be nil. *)
Definition lenMap (m : option (gmap string string)) : nat :=
  match m with
  | None => 0%nat
  | Some m => size m
  end.

(** [m[k]] with its [ok], of a map that may be nil. *)
Definition lookupMap (m : option (gmap string string)) (k : string) : option string :=
  match m with
  | None => None
  | Some m => m !! k
  end.

(** ** The cluster store

    What the client sends is recorded in order; what the store answers
    may depend on everything it was sent before. The client does not
    change the object it is given. *)

Inductive Call :=
| CreateService (namespace : string) (service : apiv1.Service)
| CreateIngress (namespace : string) (ingress : extensions.Ingress).

Record Clientset := {
  Services_Create :
    list Call -> string -> apiv1.Service -> error + apiv1.Service;
  Ingresses_Create :
    list Call -> string -> extensions.Ingress -> error + extensions.Ingress
}.

(** ** sparkui.go *)

Definition sparkUIPortConfigurationKey : string := "spark.ui.port".
Definition defaultSparkWebUIPort : Z := 4040.
Definition defaultSparkWebUIPortName : string := "spark-driver-ui-port".

(** SparkService encapsulates information about the driver UI service. *)
Record SparkService := {
  serviceName : string;
  serviceType : string;
  servicePort : Z;
  servicePortName : string;
  targetPort : intstr.IntOrString;
  serviceIP : string;
  serviceAnnotations : option (gmap string string)
}.

Section PortResolver.
Variable arch : Arch.

(** [getUITargetPort] attempts to get the Spark web UI port from
    configuration property spark.ui.port in Spec.SparkConf if it is
    present, otherwise the default port is returned. *)
Definition getUITargetPort (app : v1beta2.SparkApplication) : Z * option error :=
  match v1beta2.SparkConf (v1beta2.Spec app) !! sparkUIPortConfigurationKey with
  | Some portStr =>
      let '(port, err) := Strconv.Atoi arch portStr in
      (int32 port, err)
  | None => (defaultSparkWebUIPort, None)
  end.

Definition getUIServicePort (app : v1beta2.SparkApplication) : Z * option error :=
  match v1beta2.SparkUIOptions (v1beta2.Spec app) with
  | None => getUITargetPort app
  | Some opts =>
      match v1beta2.ServicePort opts with
      | Some port => (port, None)
      | None => (defaultSparkWebUIPort, None)
      end
  end.

Definition getUIServicePortName (app : v1beta2.SparkApplication) : string :=
  match v1beta2.SparkUIOptions (v1beta2.Spec app) with
  | None => defaultSparkWebUIPortName
  | Some opts =>
      match v1beta2.ServicePortName opts with
      | Some portName => portName
      | None => defaultSparkWebUIPortName
      end
  end.

End PortResolver.

(** ** package regexp, for the syntax the two placeholder patterns use

    A pattern is a sequence of one-byte items (a literal byte, a bracket
    class of one byte, or [\s]), each of which may carry a [*]. Matching
    is leftmost-first with a greedy [*], on bytes: every byte such a
    pattern can match is ASCII, so bytes and runes agree. *)

Module Regexp.

Inductive class :=
| Only (c : ascii)   (* a literal byte, or [[c]] *)
| Space.             (* [\s]: [[\t\n\f\r ]] *)

Inductive item :=
| One (k : class)
| Many (k : class).  (* [k*] *)

Definition Regexp := list item.

Definition isSpace (c : ascii) : bool :=
  let v := byte_val c in
  (v =? 9) || (v =? 10) || (v =? 12) || (v =? 13) || (v =? 32).

Definition member (k : class) (c : ascii) : bool :=
  match k with
  | Only x => Ascii.eqb x c
  | Space => isSpace c
  end.

Definition starred (k : class) (rest : string) : item * string :=
  match rest with
  | String "*" rest' => (Many k, rest')
  | _ => (One k, rest)
  end.

(** A byte that stands for itself: a letter, a digit, a closing brace,
    or an opening brace that does not start a repetition count. *)
Definition literal (c : ascii) (rest : string) : bool :=
  between "a" c "z" || between "A" c "Z" || between "0" c "9"
  || Ascii.eqb c "}"
  || (Ascii.eqb c "{"
      && negb match rest with String d _ => between "0" d "9" | _ => false end).

(** [regexp.Compile], for this syntax; [None] for anything else. *)
Fixpoint Compile (fuel : nat) (expr : string) : option Regexp :=
  match fuel with
  | O => None
  | S fuel =>
      match expr with
      | EmptyString => Some nil
      | String "\" (String "s" rest) =>
          let '(it, rest) := starred Space rest in
          cons it <$> Compile fuel rest
      | String "[" (String c (String "]" rest)) =>
          if literal c EmptyString || Ascii.eqb c "$" then
            let '(it, rest) := starred (Only c) rest in
            cons it <$> Compile fuel rest
          else None
      | String c rest =>
          if literal c rest then
            let '(it, rest) := starred (Only c) rest in
            cons it <$> Compile fuel rest
          else None
      end
  end.

(** [regexp.MustCompile]: the patterns below compile, see
    [ingressAppNameURLRegex_compiles]. *)
Definition MustCompile (expr : string) : Regexp :=
  default nil (Compile (S (String.length expr)) expr).

(** [k*] followed by the continuation [next]: as many bytes of [k] as
    possible, giving back one at a time while [next] fails. *)
Fixpoint star (k : class) (next : string -> option nat) (s : string) : option nat :=
  match s with
  | String c s' =>
      if member k c then
        match star k next s' with
        | Some n => Some (S n)
        | None => next s
        end
      else next s
  | EmptyString => next s
  end.

(** The length of the match of [re] that starts at the head of [s]. *)
Fixpoint matchHere (re : Regexp) (s : string) : option nat :=
  match re with
  | nil => Some O
  | One k :: re' =>
      match s with
      | String c s' => if member k c then S <$> matchHere re' s' else None
      | EmptyString => None
      end
  | Many k :: re' => star k (matchHere re') s
  end.

Section Expand.

(** [utf8.DecodeRuneInString] with [unicode.IsLetter] and
    [unicode.IsDigit], for a string whose first byte is not ASCII:
    the width in bytes of its first rune when that rune is a letter
    or a digit, and 0 when it is not. The Unicode tables are not part
    of this development. *)
Variable unicodeNameRune : string -> nat.

Definition nameRuneWidth (str : string) : nat :=
  match str with
  | EmptyString => O
  | String c _ =>
      if byte_val c <? 128 then
        if between "a" c "z" || between "A" c "Z" || between "0" c "9"
           || Ascii.eqb c "_"
        then 1%nat else O
      else Nat.min (unicodeNameRune str) (String.length str)
  end.

(** The loop of [extract] over the runes of a name: the index where
    the name ends. *)
Fixpoint nameEnd (fuel : nat) (str : string) : nat :=
  match fuel with
  | O => O
  | S fuel =>
      match nameRuneWidth str with
      | O => O
      | w => (w + nameEnd fuel (Strings.drop w str))%nat
      end
  end.

(** The number a name stands for, or [-1]. *)
Fixpoint parseNum (num : Z) (name : string) : Z :=
  match name with
  | EmptyString => num
  | String c name' =>
      if negb (between "0" c "9") || (num >=? 100000000) then -1
      else parseNum (num * 10 + byte_val c - byte_val "0") name'
  end.

(** [extract(str)]: the name from a leading [name] or [{name}], its
    number, and the rest; [None] is [ok == false]. *)
Definition extract (str : string) : option (string * Z * string) :=
  match str with
  | EmptyString => None
  | String c0 str' =>
      let brace := Ascii.eqb c0 "{" in
      let str := if brace then str' else str in
      let i := nameEnd (String.length str) str in
      if (i =? 0)%nat then None
      else
        let name := Strings.take i str in
        if brace && negb (Strings.HasPrefix (Strings.drop i str) "}") then None
        else
          let i := if brace then S i else i in
          let num := parseNum 0 name in
          let num :=
            if Strings.HasPrefix name "0" && (1 <? len name) then -1 else num in
          Some (name, num, Strings.drop i str)
  end.

(** [re.expand(dst, template, src, match)] for a pattern without
    capture groups: [$0] and [${0}] stand for the matched text, any
    other name or number for the empty string, [$$] for a dollar
    sign, and a dollar sign that no name follows for itself. *)
Fixpoint expandLoop (fuel : nat) (template matched : string) : string :=
  match fuel with
  | O => template
  | S fuel =>
      let '(before, after, ok) := Strings.Cut template "$" in
      if negb ok then template
      else
        before +:+
        match after with
        | String "$" template' => "$" +:+ expandLoop fuel template' matched
        | _ =>
            match extract after with
            | None => "$" +:+ expandLoop fuel after matched
            | Some (_, num, rest) =>
                (if num =? 0 then matched else EmptyString)
                +:+ expandLoop fuel rest matched
            end
        end
  end.

Definition expand (template matched : string) : string :=
  expandLoop (S (String.length template)) template matched.

(** The loop of [re.replaceAll]: the text before the leftmost match
    is copied, the match is replaced, and the search goes on after
    it; [skip] counts the bytes of the current match still to be
    passed over. A match of the empty string counts as no match: the
    patterns of this file have none, see
    [matchHere_placeholder_nonempty]. *)
Fixpoint replaceAll (re : Regexp) (repl : string -> string)
    (skip : nat) (src : string) : string :=
  match src with
  | EmptyString => EmptyString
  | String c src' =>
      match skip with
      | S skip => replaceAll re repl skip src'
      | O =>
          match matchHere re src with
          | Some (S n) => repl (Strings.take (S n) src) +:+ replaceAll re repl n src'
          | _ => String c (replaceAll re repl O src')
          end
      end
  end.

(** [re.ReplaceAllString(src, repl)]: inside [repl], dollar signs are
    interpreted as in [Expand]. *)
Definition ReplaceAllString (re : Regexp) (src repl : string) : string :=
  replaceAll re (expand repl) O src.

End Expand.

End Regexp.

(** ** package net/url: [Parse]

    The parser as of Go 1.15 to 1.19, the releases the operator was
    built with: the fragment keeps a raw form, a host in brackets is not
    checked to be an IP address, and the fields that are set are the ones
    listed in [URL]. Strings are read byte by byte; where the Go code
    ranges over runes ([validUserinfo]) every byte of a rune that is not
    ASCII is refused, as the rune is. *)

Module Url.

Record Userinfo := {
  username : string;
  password : string;
  passwordSet : bool
}.

Record URL := {
  Scheme : string;
  Opaque : string;
  User : option Userinfo;
  Host : string;
  Path : string;
  RawPath : string;
  ForceQuery : bool;
  RawQuery : string;
  Fragment : string;
  RawFragment : string
}.

Inductive encoding :=
| encodePath
| encodePathSegment
| encodeHost
| encodeZone
| encodeUserPassword
| encodeQueryComponent
| encodeFragment.

Definition encoding_eqb (m1 m2 : encoding) : bool :=
  match m1, m2 with
  | encodePath, encodePath
  | encodePathSegment, encodePathSegment
  | encodeHost, encodeHost
  | encodeZone, encodeZone
  | encodeUserPassword, encodeUserPassword
  | encodeQueryComponent, encodeQueryComponent
  | encodeFragment, encodeFragment => true
  | _, _ => false
  end.

(** [c] is one of the bytes of [set]. *)
Definition oneOf (c : ascii) (set : string) : bool := Strings.ContainsByte set c.

Definition isAlnum (c : ascii) : bool :=
  between "a" c "z" || between "A" c "Z" || between "0" c "9".

Definition ishex (c : ascii) : bool :=
  between "0" c "9" || between "a" c "f" || between "A" c "F".

Definition unhex (c : ascii) : Z :=
  if between "0" c "9" then byte_val c - byte_val "0"
  else if between "a" c "f" then byte_val c - byte_val "a" + 10
  else if between "A" c "F" then byte_val c - byte_val "A" + 10
  else 0.

(** [shouldEscape(c, mode)]: whether the byte must be escaped when it
    appears in the given part of a URL. *)
Definition shouldEscape (c : ascii) (mode : encoding) : bool :=
  if isAlnum c then false
  else if (encoding_eqb mode encodeHost || encoding_eqb mode encodeZone)
          && (oneOf c "!$&'()*+,;=:[]<>" || (byte_val c =? 34))
  then false
  else if oneOf c "-_.~" then false
  else if oneOf c "$&+,/:;=?@" then
    match mode with
    | encodePath => Ascii.eqb c "?"
    | encodePathSegment => oneOf c "/;,?"
    | encodeUserPassword => oneOf c "@/?:"
    | encodeQueryComponent => true
    | encodeFragment => false
    | encodeHost | encodeZone => true
    end
  else if encoding_eqb mode encodeFragment && oneOf c "!()*" then false
  else true.

(** The first loop of [unescape]: the percent signs are well formed and
    the bytes are allowed in this part. *)
Fixpoint unescapeCheck (mode : encoding) (s : string) : option error :=
  match s with
  | EmptyString => None
  | String "%" (String h1 (String h2 rest) as tail) =>
      if negb (ishex h1 && ishex h2) then Some (EscapeError (Strings.take 3 s))
      else if encoding_eqb mode encodeHost && (unhex h1 <? 8)
              && negb (String.eqb (Strings.take 3 s) "%25")
      then Some (EscapeError (Strings.take 3 s))
      else if encoding_eqb mode encodeZone
              && negb (String.eqb (Strings.take 3 s) "%25")
              && negb (unhex h1 * 16 + unhex h2 =? 32)
              && shouldEscape (byte_of (unhex h1 * 16 + unhex h2)) encodeHost
      then Some (EscapeError (Strings.take 3 s))
      else unescapeCheck mode rest
  | String "%" _ => Some (EscapeError (Strings.take 3 s))
  | String c rest =>
      if (encoding_eqb mode encodeHost || encoding_eqb mode encodeZone)
         && (byte_val c <? 128) && shouldEscape c encodeHost
         && negb (Ascii.eqb c "+")
      then Some (InvalidHostError (String c EmptyString))
      else unescapeCheck mode rest
  end.

(** The second loop of [unescape], over a string that passed the first:
    each escape becomes its byte. *)
Fixpoint unescapeBytes (mode : encoding) (s : string) : string :=
  match s with
  | EmptyString => EmptyString
  | String "%" (String h1 (String h2 rest)) =>
      String (byte_of (unhex h1 * 16 + unhex h2)) (unescapeBytes mode rest)
  | String "+" rest =>
      String (if encoding_eqb mode encodeQueryComponent then " " else "+")%char
             (unescapeBytes mode rest)
  | String c rest => String c (unescapeBytes mode rest)
  end.

(** [unescape(s, mode)]; a string without escapes comes back as it is. *)
Definition unescape (s : string) (mode : encoding) : error + string :=
  match unescapeCheck mode s with
  | Some e => inl e
  | None => inr (unescapeBytes mode s)
  end.

Definition upperhex (v : Z) : ascii :=
  if v <? 10 then byte_of (byte_val "0" + v) else byte_of (byte_val "A" + v - 10).

(** [escape(s, mode)] *)
Fixpoint escape (s : string) (mode : encoding) : string :=
  match s with
  | EmptyString => EmptyString
  | String c rest =>
      if shouldEscape c mode then
        if Ascii.eqb c " " && encoding_eqb mode encodeQueryComponent
        then String "+" (escape rest mode)
        else String "%" (String (upperhex (byte_val c / 16))
               (String (upperhex (byte_val c mod 16)) (escape rest mode)))
      else String c (escape rest mode)
  end.

(** [getScheme(rawURL)]: the scheme and the rest, [(scheme, path, err)]. *)
Fixpoint getSchemeLoop (i : nat) (rawURL rest : string) : error + (string * string) :=
  match rest with
  | EmptyString => inr (EmptyString, rawURL)
  | String c rest' =>
      if between "a" c "z" || between "A" c "Z" then getSchemeLoop (S i) rawURL rest'
      else if between "0" c "9" || oneOf c "+-." then
        if (i =? 0)%nat then inr (EmptyString, rawURL)
        else getSchemeLoop (S i) rawURL rest'
      else if Ascii.eqb c ":" then
        if (i =? 0)%nat then inl (errorString "missing protocol scheme")
        else inr (Strings.take i rawURL, rest')
      else
        (* an invalid character, so there is no valid scheme *)
        inr (EmptyString, rawURL)
  end.

Definition getScheme (rawURL : string) : error + (string * string) :=
  getSchemeLoop O rawURL rawURL.

(** [stringContainsCTLByte(s)] *)
Fixpoint stringContainsCTLByte (s : string) : bool :=
  match s with
  | EmptyString => false
  | String b s' => (byte_val b <? 32) || (byte_val b =? 127) || stringContainsCTLByte s'
  end.

(** [validOptionalPort(port)]: empty, or a colon and digits. *)
Fixpoint allDigits (s : string) : bool :=
  match s with
  | EmptyString => true
  | String b s' => between "0" b "9" && allDigits s'
  end.

Definition validOptionalPort (port : string) : bool :=
  match port with
  | EmptyString => true
  | String c port' => Ascii.eqb c ":" && allDigits port'
  end.

(** [validUserinfo(s)] *)
Fixpoint validUserinfo (s : string) : bool :=
  match s with
  | EmptyString => true
  | String r s' => (isAlnum r || oneOf r "-._:~!$&'()*+,;=%@") && validUserinfo s'
  end.

(** [strings.Index(s, sub)]: the text before the first [sub], when there
    is one. *)
Fixpoint beforeIndex (s sub : string) : option string :=
  if Strings.HasPrefix s sub then Some EmptyString
  else
    match s with
    | EmptyString => None
    | String c s' => String c <$> beforeIndex s' sub
    end.

(** [parseHost(host)] *)
Definition parseHost (host : string) : error + string :=
  let plain := unescape host encodeHost in
  if Strings.HasPrefix host "[" then
    (* an IP-literal, as in "[fe80::1]", "[fe80::1%25en0]", "[fe80::1]:80" *)
    match Strings.CutLast host "]" with
    | None => inl (errorString "missing ']' in host")
    | Some (upto, colonPort) =>
        if negb (validOptionalPort colonPort)
        then inl (errorf "invalid port %q after host" colonPort)
        else
          match beforeIndex upto "%25" with
          | Some host1 =>
              let zone := String.length host1 in
              match unescape host1 encodeHost with
              | inl e => inl e
              | inr host1 =>
                  match unescape (Strings.drop zone upto) encodeZone with
                  | inl e => inl e
                  | inr host2 =>
                      match unescape (String "]" colonPort) encodeHost with
                      | inl e => inl e
                      | inr host3 => inr (host1 +:+ host2 +:+ host3)
                      end
                  end
              end
          | None => plain
          end
    end
  else
    match Strings.CutLast host ":" with
    | Some (_, port) =>
        if negb (validOptionalPort (String ":" port))
        then inl (errorf "invalid port %q after host" (String ":" port))
        else plain
    | None => plain
    end.

(** [parseAuthority(authority)] *)
Definition parseAuthority (authority : string) : error + (option Userinfo * string) :=
  match Strings.CutLast authority "@" with
  | None =>
      match parseHost authority with
      | inl e => inl e
      | inr host => inr (None, host)
      end
  | Some (userinfo, hostpart) =>
      match parseHost hostpart with
      | inl e => inl e
      | inr host =>
          if negb (validUserinfo userinfo)
          then inl (errorString "net/url: invalid userinfo")
          else if negb (Strings.ContainsByte userinfo ":") then
            match unescape userinfo encodeUserPassword with
            | inl e => inl e
            | inr userinfo =>
                inr (Some {| username := userinfo; password := EmptyString;
                             passwordSet := false |}, host)
            end
          else
            let '(username, password, _) := Strings.Cut userinfo ":" in
            match unescape username encodeUserPassword with
            | inl e => inl e
            | inr username =>
                match unescape password encodeUserPassword with
                | inl e => inl e
                | inr password =>
                    inr (Some {| username := username; password := password;
                                 passwordSet := true |}, host)
                end
            end
      end
  end.

(** [parse(rawURL, false)]: a URL without its fragment. *)
Definition parse (rawURL : string) : error + URL :=
  if stringContainsCTLByte rawURL
  then inl (errorString "net/url: invalid control character in URL")
  else if String.eqb rawURL "*" then
    inr {| Scheme := EmptyString; Opaque := EmptyString; User := None;
           Host := EmptyString; Path := "*"; RawPath := EmptyString;
           ForceQuery := false; RawQuery := EmptyString;
           Fragment := EmptyString; RawFragment := EmptyString |}
  else
    (* Split off possible leading "http:", "mailto:", etc. *)
    match getScheme rawURL with
    | inl err => inl err
    | inr (scheme, rest) =>
        let scheme := Strings.ToLower scheme in
        let '(rest, forceQuery, rawQuery) :=
          if Strings.HasSuffixByte rest "?" && (Strings.CountByte rest "?" =? 1)
          then (Strings.dropLast rest, true, EmptyString)
          else let '(rest, rawQuery, _) := Strings.Cut rest "?" in
               (rest, false, rawQuery) in
        if negb (Strings.HasPrefix rest "/") && negb (String.eqb scheme EmptyString)
        then
          (* We consider rootless paths per RFC 3986 as opaque. *)
          inr {| Scheme := scheme; Opaque := rest; User := None;
                 Host := EmptyString; Path := EmptyString; RawPath := EmptyString;
                 ForceQuery := forceQuery; RawQuery := rawQuery;
                 Fragment := EmptyString; RawFragment := EmptyString |}
        else if negb (Strings.HasPrefix rest "/")
                && Strings.ContainsByte (Strings.Cut rest "/").1.1 ":"
        then inl (errorString "first path segment in URL cannot contain colon")
        else
          let withAuthority :=
            (negb (String.eqb scheme EmptyString) || negb (Strings.HasPrefix rest "///"))
            && Strings.HasPrefix rest "//" in
          let authorityAndRest : error + (option Userinfo * string * string) :=
            if withAuthority then
              let '(authority, after, found) := Strings.Cut (Strings.drop 2 rest) "/" in
              let rest := if found then String "/" after else EmptyString in
              match parseAuthority authority with
              | inl err => inl err
              | inr (user, host) => inr (user, host, rest)
              end
            else inr (None, EmptyString, rest) in
          match authorityAndRest with
          | inl err => inl err
          | inr (user, host, rest) =>
              (* setPath: RawPath stays empty when the default escaping
                 of Path gives back the same text. *)
              match unescape rest encodePath with
              | inl err => inl err
              | inr path =>
                  inr {| Scheme := scheme; Opaque := EmptyString; User := user;
                         Host := host; Path := path;
                         RawPath := if String.eqb rest (escape path encodePath)
                                    then EmptyString else rest;
                         ForceQuery := forceQuery; RawQuery := rawQuery;
                         Fragment := EmptyString; RawFragment := EmptyString |}
              end
          end
    end.

(** [url.setFragment(f)] *)
Definition setFragment (url : URL) (f : string) : error + URL :=
  match unescape f encodeFragment with
  | inl err => inl err
  | inr frag =>
      inr {| Scheme := Scheme url; Opaque := Opaque url; User := User url;
             Host := Host url; Path := Path url; RawPath := RawPath url;
             ForceQuery := ForceQuery url; RawQuery := RawQuery url;
             Fragment := frag;
             RawFragment := if String.eqb f (escape frag encodeFragment)
                            then EmptyString else f |}
  end.

(** [url.Parse(rawURL)] *)
Definition Parse (rawURL : string) : error + URL :=
  (* Cut off #frag *)
  let '(u, frag, _) := Strings.Cut rawURL "#" in
  match parse u with
  | inl err => inl (urlError "parse" u err)
  | inr url =>
      if String.eqb frag EmptyString then inr url
      else
        match setFragment url frag with
        | inl err => inl (urlError "parse" rawURL err)
        | inr url => inr url
        end
  end.

End Url.

(** ** sparkui.go, continued: URL templating and the two provisioners *)

Definition ingressAppNameURLRegex : Regexp.Regexp :=
  Regexp.MustCompile "{{\s*[$]appName\s*}}".
Definition ingressAppNamespaceURLRegex : Regexp.Regexp :=
  Regexp.MustCompile "{{\s*[$]appNamespace\s*}}".

(** SparkIngress encapsulates information about the driver UI ingress. *)
Record SparkIngress := {
  ingressName : string;
  ingressURL : Url.URL;
  annotations : option (gmap string string);
  ingressTLS : option (list extensions.IngressTLS)
}.

Definition rewriteTargetAnnotation : string :=
  "nginx.ingress.kubernetes.io/rewrite-target".

Section SparkUI.

Variable arch : Arch.
Variable unicodeNameRune : string -> nat.

(** Functions and constants of the operator that other files of the
    package and [pkg/config] define. A map or a slice they return may be
    nil ([None]). *)
Variable getIngressResourceAnnotations :
  v1beta2.SparkApplication -> option (gmap string string).
Variable getIngressTlsHosts :
  v1beta2.SparkApplication -> option (list extensions.IngressTLS).
Variable getDefaultUIIngressName : v1beta2.SparkApplication -> string.
Variable getDefaultUIServiceName : v1beta2.SparkApplication -> string.
Variable getResourceLabels :
  v1beta2.SparkApplication -> option (gmap string string).
Variable getOwnerReference : v1beta2.SparkApplication -> metav1.OwnerReference.
Variable getUIServiceType : v1beta2.SparkApplication -> string.
Variable getServiceAnnotations :
  v1beta2.SparkApplication -> option (gmap string string).
Variables SparkAppNameLabel SparkRoleLabel SparkDriverRole : string.

(** The string that [getSparkUIingressURL] parses: the format with the
    application name put in, and then the namespace. *)
Definition templatedURL (ingressURLFormat appName appNamespace : string) : string :=
  Regexp.ReplaceAllString unicodeNameRune ingressAppNamespaceURLRegex
    (Regexp.ReplaceAllString unicodeNameRune ingressAppNameURLRegex
       ingressURLFormat appName)
    appNamespace.

Definition getSparkUIingressURL
    (ingressURLFormat appName appNamespace : string) : error + Url.URL :=
  let ingressURL := templatedURL ingressURLFormat appName appNamespace in
  match Url.Parse ingressURL with
  | inl err => inl err
  | inr parsedURL =>
      if String.eqb (Url.Scheme parsedURL) EmptyString then
        (* url does not contain any scheme, adding http:// so url.Parse
           can function correctly *)
        match Url.Parse ("http://" +:+ ingressURL) with
        | inl err => inl err
        | inr parsedURL => inr parsedURL
        end
      else inr parsedURL
  end.

(** [len(s)] of a slice that may be nil. *)
Definition lenSlice {A} (s : option (list A)) : nat :=
  match s with
  | None => O
  | Some l => length l
  end.

(** The ingress object that [createSparkUIIngress] sends. *)
Definition buildIngress (app : v1beta2.SparkApplication) (service : SparkService)
    (ingressURL : Url.URL) : extensions.Ingress :=
  let ingressResourceAnnotations := getIngressResourceAnnotations app in
  let ingressTlsHosts := getIngressTlsHosts app in
  let ingressURLPath := Url.Path ingressURL in
  (* If we're serving on a subpath, we need to ensure we create capture groups *)
  let subpath :=
    negb (String.eqb ingressURLPath EmptyString) && negb (String.eqb ingressURLPath "/") in
  let ingressURLPath :=
    if subpath then ingressURLPath +:+ "(/|$)(.*)" else ingressURLPath in
  let annotations :=
    if negb (lenMap ingressResourceAnnotations =? 0)%nat
    then ingressResourceAnnotations else None in
  (* If we're serving on a subpath, we need to ensure we use the capture groups *)
  let annotations :=
    if subpath
    then Some (<[rewriteTargetAnnotation := "/$2"]> (default ∅ annotations))
    else annotations in
  {| extensions.ObjectMeta :=
       {| metav1.Name := getDefaultUIIngressName app;
          metav1.Namespace := v1beta2.Namespace app;
          metav1.Labels := getResourceLabels app;
          metav1.Annotations := annotations;
          metav1.OwnerReferences := [getOwnerReference app] |};
     extensions.Spec :=
       {| extensions.TLS :=
            if negb (lenSlice ingressTlsHosts =? 0)%nat then ingressTlsHosts else None;
          extensions.Rules :=
            [ {| extensions.Host := Url.Host ingressURL;
                 extensions.HTTP :=
                   Some {| extensions.Paths :=
                     [ {| extensions.Path := ingressURLPath;
                          extensions.Backend :=
                            {| extensions.ServiceName := serviceName service;
                               extensions.ServicePort :=
                                 {| intstr.Type_ := intstr.Int;
                                    intstr.IntVal := servicePort service;
                                    intstr.StrVal := EmptyString |} |} |} ] |} |} ] |} |}.

Definition createSparkUIIngress (app : v1beta2.SparkApplication)
    (service : SparkService) (ingressURL : Url.URL) (kubeClient : Clientset)
    (sent : list Call) : (error + SparkIngress) * list Call :=
  let ingress := buildIngress app service ingressURL in
  let namespace := metav1.Namespace (extensions.ObjectMeta ingress) in
  (* the object the store returns is dropped: [_, err := ...Create(...)] *)
  match Ingresses_Create kubeClient sent namespace ingress with
  | inl err => (inl err, (sent ++ [CreateIngress namespace ingress])%list)
  | inr _ =>
      (inr {| ingressName := metav1.Name (extensions.ObjectMeta ingress);
              ingressURL := ingressURL;
              annotations := metav1.Annotations (extensions.ObjectMeta ingress);
              ingressTLS := extensions.TLS (extensions.Spec ingress) |},
       (sent ++ [CreateIngress namespace ingress])%list)
  end.

(** The service object that [createSparkUIService] sends once the ports
    are resolved. *)
Definition buildService (app : v1beta2.SparkApplication)
    (portName : string) (port tPort : Z) : apiv1.Service :=
  let serviceAnnotations := getServiceAnnotations app in
  {| apiv1.ObjectMeta :=
       {| metav1.Name := getDefaultUIServiceName app;
          metav1.Namespace := v1beta2.Namespace app;
          metav1.Labels := getResourceLabels app;
          metav1.Annotations :=
            if negb (lenMap serviceAnnotations =? 0)%nat
            then serviceAnnotations else None;
          metav1.OwnerReferences := [getOwnerReference app] |};
     apiv1.Spec :=
       {| apiv1.Ports :=
            [ {| apiv1.Name := portName;
                 apiv1.Port := port;
                 apiv1.TargetPort :=
                   {| intstr.Type_ := intstr.Int;
                      intstr.IntVal := tPort;
                      intstr.StrVal := EmptyString |} |} ];
          apiv1.Selector :=
            Some (<[SparkRoleLabel := SparkDriverRole]>
                    (<[SparkAppNameLabel := v1beta2.Name app]> ∅));
          apiv1.ClusterIP := EmptyString;
          apiv1.Type_ := getUIServiceType app |} |}.

Definition createSparkUIService (app : v1beta2.SparkApplication)
    (kubeClient : Clientset) (sent : list Call) : Result SparkService * list Call :=
  let portName := getUIServicePortName app in
  let '(port, err) := getUIServicePort arch app in
  match err with
  | Some _ => (Err (Fmt.Errorf_d "invalid Spark UI servicePort: " port), sent)
  | None =>
      let '(tPort, err) := getUITargetPort arch app in
      match err with
      | Some _ => (Err (Fmt.Errorf_d "invalid Spark UI targetPort: " tPort), sent)
      | None =>
          let service := buildService app portName port tPort in
          let serviceAnnotations := getServiceAnnotations app in
          let sent' := (sent ++ [CreateService (v1beta2.Namespace app) service])%list in
          match Services_Create kubeClient sent (v1beta2.Namespace app) service with
          | inl err => (Err err, sent')
          | inr service =>
              match apiv1.Ports (apiv1.Spec service) with
              | nil => (Panic "runtime error: index out of range [0] with length 0", sent')
              | port0 :: _ =>
                  (Ok {| serviceName := metav1.Name (apiv1.ObjectMeta service);
                         serviceType := apiv1.Type_ (apiv1.Spec service);
                         servicePort := apiv1.Port port0;
                         servicePortName := apiv1.Name port0;
                         targetPort := apiv1.TargetPort port0;
                         serviceIP := apiv1.ClusterIP (apiv1.Spec service);
                         serviceAnnotations := serviceAnnotations |},
                   sent')
              end
          end
      end
  end.

End SparkUI.

(** ** What the specification's words stand for *)

Module Spec.

(** A run of decimal digits. *)
Fixpoint allDigits (s : string) : bool :=
  match s with
  | EmptyString => true
  | String c s' => between "0" c "9" && allDigits s'
  end.

Definition isDigits (s : string) : bool :=
  negb (String.eqb s EmptyString) && allDigits s.

(** A base-10 integer: digits, with an optional sign in front. *)
Definition isDecimal (s : string) : bool :=
  match s with
  | EmptyString => false
  | String c s' =>
      if Ascii.eqb c "-" || Ascii.eqb c "+" then isDigits s' else isDigits s
  end.

(** The number that a run of digits denotes, after the digits [acc]. *)
Fixpoint digitsValue (acc : Z) (s : string) : Z :=
  match s with
  | EmptyString => acc
  | String c s' => digitsValue (acc * 10 + (byte_val c - byte_val "0")) s'
  end.

Definition decimalValue (s : string) : Z :=
  match s with
  | EmptyString => 0
  | String c s' =>
      if Ascii.eqb c "-" then - digitsValue 0 s'
      else if Ascii.eqb c "+" then digitsValue 0 s'
      else digitsValue 0 s
  end.

Definition inInt32 (z : Z) : Prop := - 2 ^ 31 <= z < 2 ^ 31.

(** White space inside the delimiters of a placeholder. *)
Fixpoint allSpace (w : string) : bool :=
  match w with
  | EmptyString => true
  | String c w' => Regexp.isSpace c && allSpace w'
  end.

(** An occurrence of the placeholder of [token]: [{{ $token }}], with
    any white space next to the braces. *)
Definition Placeholder (token m : string) : Prop :=
  exists w1 w2,
    allSpace w1 = true /\ allSpace w2 = true /\
    m = "{{" +:+ w1 +:+ "$" +:+ token +:+ w2 +:+ "}}".


(** The second half of [getSparkUIingressURL], on a string that is
    already templated: parse, and parse again behind ["http://"] when no
    scheme was found. *)
Definition parseWithDefaultScheme (ingressURL : string) : error + Url.URL :=
  match Url.Parse ingressURL with
  | inl err => inl err
  | inr parsedURL =>
      if String.eqb (Url.Scheme parsedURL) EmptyString
      then Url.Parse ("http://" +:+ ingressURL)
      else inr parsedURL
  end.

(** The pattern of a sequence of literal bytes. *)
Fixpoint literals (s : string) : Regexp.Regexp :=
match s with
| EmptyString => nil
| String c s' => Regexp.One (Regexp.Only c) :: literals s'
end.

(** The pattern of the placeholder of [token], item by item: two opening
    braces, white space, a dollar sign and the token, white space, two
    closing braces. *)
Definition placeholderPattern (token : string) : Regexp.Regexp :=
(literals "{{" ++ Regexp.Many Regexp.Space
   :: literals ("$" +:+ token) ++ Regexp.Many Regexp.Space :: literals "}}")%list.

End Spec.

(** ** Reading a submitted object, and a sample store *)

(** The paths of the rules of an ingress object, in order. *)
Definition ingressPaths (ingress : extensions.Ingress) : list string :=
  flat_map
    (fun rule =>
       match extensions.HTTP rule with
       | Some http => map extensions.Path (extensions.Paths http)
       | None => nil
       end)
    (extensions.Rules (extensions.Spec ingress)).

Module Sample.

Definition app (conf : gmap string string)
    (opts : option v1beta2.SparkUIConfiguration) : v1beta2.SparkApplication :=
  {| v1beta2.Name := "job1";
     v1beta2.Namespace := "ns1";
     v1beta2.Spec := {| v1beta2.SparkConf := conf;
                        v1beta2.SparkUIOptions := opts |} |}.

Definition owner (a : v1beta2.SparkApplication) : metav1.OwnerReference :=
  {| metav1.APIVersion := "sparkoperator.k8s.io/v1beta2";
     metav1.Kind := "SparkApplication";
     metav1.OwnerName := v1beta2.Name a;
     metav1.UID := "uid-1";
     metav1.Controller := Some true |}.

Definition stamp (meta : metav1.ObjectMeta) : metav1.ObjectMeta :=
  {| metav1.Name := metav1.Name meta;
     metav1.Namespace := metav1.Namespace meta;
     metav1.Labels := metav1.Labels meta;
     metav1.Annotations :=
       Some (<["admission/stamped" := "true"]> (default ∅ (metav1.Annotations meta)));
     metav1.OwnerReferences := metav1.OwnerReferences meta |}.

(** A store that accepts every object, gives a service its cluster IP
    and, as an admission hook may, adds an annotation of its own. *)
Definition store : Clientset :=
  {| Services_Create := fun _ _ service =>
       inr {| apiv1.ObjectMeta := stamp (apiv1.ObjectMeta service);
              apiv1.Spec :=
                {| apiv1.Ports := apiv1.Ports (apiv1.Spec service);
                   apiv1.Selector := apiv1.Selector (apiv1.Spec service);
                   apiv1.ClusterIP := "10.0.0.7";
                   apiv1.Type_ := "ClusterIP" |} |};
     Ingresses_Create := fun _ _ ingress =>
       inr {| extensions.ObjectMeta := stamp (extensions.ObjectMeta ingress);
              extensions.Spec := extensions.Spec ingress |} |}.

Definition service : SparkService :=
  {| serviceName := "job1-ui-svc";
     serviceType := "ClusterIP";
     servicePort := 4040;
     servicePortName := "spark-driver-ui-port";
     targetPort := {| intstr.Type_ := intstr.Int; intstr.IntVal := 4040;
                      intstr.StrVal := EmptyString |};
     serviceIP := "10.0.0.7";
     serviceAnnotations := None |}.

Definition url (host path : string) : Url.URL :=
  {| Url.Scheme := "http"; Url.Opaque := EmptyString; Url.User := None;
     Url.Host := host; Url.Path := path; Url.RawPath := EmptyString;
     Url.ForceQuery := false; Url.RawQuery := EmptyString;
     Url.Fragment := EmptyString; Url.RawFragment := EmptyString |}.

Definition ingressName (a : v1beta2.SparkApplication) : string :=
  v1beta2.Name a +:+ "-ui-ingress".
Definition serviceName (a : v1beta2.SparkApplication) : string :=
  v1beta2.Name a +:+ "-ui-svc".

End Sample.

(** Two more stores: one that refuses every object, and one whose answer
    to a service has lost its port entries. *)
Module Stores.

Definition rejecting : Clientset :=
  {| Services_Create := fun _ _ _ =>
       inl (StatusError "AlreadyExists" "services already exists");
     Ingresses_Create := fun _ _ _ =>
       inl (StatusError "Forbidden" "ingresses is forbidden") |}.

Definition portless : Clientset :=
  {| Services_Create := fun _ _ service =>
       inr {| apiv1.ObjectMeta := apiv1.ObjectMeta service;
              apiv1.Spec :=
                {| apiv1.Ports := nil;
                   apiv1.Selector := apiv1.Selector (apiv1.Spec service);
                   apiv1.ClusterIP := "None";
                   apiv1.Type_ := "ExternalName" |} |};
     Ingresses_Create := fun _ _ ingress => inr ingress |}.

End Stores.

(** The backends of the paths of an ingress object, and the hosts of its
    rules, in order. *)
Definition ingressBackends (ingress : extensions.Ingress)
    : list extensions.IngressBackend :=
  flat_map
    (fun rule =>
       match extensions.HTTP rule with
       | Some http => map extensions.Backend (extensions.Paths http)
       | None => nil
       end)
    (extensions.Rules (extensions.Spec ingress)).

Definition ingressHosts (ingress : extensions.Ingress) : list string :=
  map extensions.Host (extensions.Rules (extensions.Spec ingress)).

(** ** Plain hosts, paths and schemes

    The bytes that a host name, a path and a scheme are commonly written
    with; none of them needs escaping in its part of a URL. *)
Module Shape.

Fixpoint all (p : ascii -> bool) (s : string) : bool :=
  match s with
  | EmptyString => true
  | String c s' => p c && all p s'
  end.

Definition isLetter (c : ascii) : bool := between "a" c "z" || between "A" c "Z".

(** Letters, digits, [-] and [.]. *)
Definition hostByte (c : ascii) : bool := Url.isAlnum c || Url.oneOf c "-.".

(** Letters, digits, [-], [_], [.], [~] and [/]. *)
Definition pathByte (c : ascii) : bool := Url.isAlnum c || Url.oneOf c "-_.~/".

(** Letters, digits, [+], [-] and [.]. *)
Definition schemeByte (c : ascii) : bool := Url.isAlnum c || Url.oneOf c "+-.".

(** A scheme: a letter, then scheme bytes. *)
Definition isScheme (s : string) : bool :=
  match s with
  | EmptyString => false
  | String c s' => isLetter c && all schemeByte s'
  end.

(** A path: empty, or a slash and then path bytes. *)
Definition isPath (p : string) : bool :=
  match p with
  | EmptyString => true
  | String c p' => Ascii.eqb c "/" && all pathByte p'
  end.

(** The URL that has a scheme, a host and a path, and nothing else. *)
Definition plainURL (scheme host path : string) : Url.URL :=
  {| Url.Scheme := scheme; Url.Opaque := EmptyString; Url.User := None;
     Url.Host := host; Url.Path := path; Url.RawPath := EmptyString;
     Url.ForceQuery := false; Url.RawQuery := EmptyString;
     Url.Fragment := EmptyString; Url.RawFragment := EmptyString |}.

(** The URL that has a scheme and an opaque part, and nothing else. *)
Definition opaqueURL (scheme opaque : string) : Url.URL :=
  {| Url.Scheme := scheme; Url.Opaque := opaque; Url.User := None;
     Url.Host := EmptyString; Url.Path := EmptyString; Url.RawPath := EmptyString;
     Url.ForceQuery := false; Url.RawQuery := EmptyString;
     Url.Fragment := EmptyString; Url.RawFragment := EmptyString |}.

End Shape.

(** * Properties *)

(** ** Port resolution *)

(** C5. When the UI options are present, [getUIServicePort] returns the
    service port of the options if it is set and the default port 4040
    if it is not, with no error, whatever the conf map holds: the conf
    map is not consulted, so any two conf maps give the same result. *)
Theorem getUIServicePort_with_options (arch : Arch)
    (app : v1beta2.SparkApplication) (opts : v1beta2.SparkUIConfiguration) :
  v1beta2.SparkUIOptions (v1beta2.Spec app) = Some opts ->
  (forall port, v1beta2.ServicePort opts = Some port ->
     getUIServicePort arch app = (port, None))
  /\ (v1beta2.ServicePort opts = None ->
     getUIServicePort arch app = (defaultSparkWebUIPort, None))
  /\ (forall conf : gmap string string,
     getUIServicePort arch
       {| v1beta2.Name := v1beta2.Name app;
          v1beta2.Namespace := v1beta2.Namespace app;
          v1beta2.Spec := {| v1beta2.SparkConf := conf;
                             v1beta2.SparkUIOptions := Some opts |} |}
     = getUIServicePort arch app)
  /\ defaultSparkWebUIPort = 4040.
Proof.
  intros Hopts. unfold getUIServicePort. rewrite Hopts. cbn.
  repeat split.
  - intros port ->. reflexivity.
  - intros ->. reflexivity.
Qed.

Lemma getUIServicePort_with_options_witness :
  let opts := {| v1beta2.ServicePort := Some 8080;
                 v1beta2.ServicePortName := None |} in
  let app := {| v1beta2.Name := "job1"; v1beta2.Namespace := "ns1";
                v1beta2.Spec :=
                  {| v1beta2.SparkConf := {[ "spark.ui.port" := "abc" ]};
                     v1beta2.SparkUIOptions := Some opts |} |} in
  getUIServicePort Arch64 app = (8080, None).
Proof.
  intros opts app.
  exact (proj1 (getUIServicePort_with_options Arch64 app opts eq_refl) 8080 eq_refl).
Defined.

(** C6. When the UI options are absent, [getUIServicePort] returns the
    very pair, port and error, that [getUITargetPort] returns for the
    same application. *)
Theorem getUIServicePort_without_options (arch : Arch)
    (app : v1beta2.SparkApplication) :
  v1beta2.SparkUIOptions (v1beta2.Spec app) = None ->
  getUIServicePort arch app = getUITargetPort arch app.
Proof.
  intros Hnone. unfold getUIServicePort. now rewrite Hnone.
Qed.

Lemma getUIServicePort_without_options_witness :
  let app := {| v1beta2.Name := "job1"; v1beta2.Namespace := "ns1";
                v1beta2.Spec :=
                  {| v1beta2.SparkConf := {[ "spark.ui.port" := "4041" ]};
                     v1beta2.SparkUIOptions := None |} |} in
  getUIServicePort Arch64 app = getUITargetPort Arch64 app
  /\ getUITargetPort Arch64 app = (4041, None).
Proof.
  intros app. split.
  - exact (getUIServicePort_without_options Arch64 app eq_refl).
  - vm_compute. reflexivity.
Defined.

(** ** The ingress provisioner *)

Section IngressProperties.

Variable getIngressResourceAnnotations :
  v1beta2.SparkApplication -> option (gmap string string).
Variable getIngressTlsHosts :
  v1beta2.SparkApplication -> option (list extensions.IngressTLS).
Variable getDefaultUIIngressName : v1beta2.SparkApplication -> string.
Variable getResourceLabels :
  v1beta2.SparkApplication -> option (gmap string string).
Variable getOwnerReference : v1beta2.SparkApplication -> metav1.OwnerReference.

Local Abbreviation buildIngress' :=
  (buildIngress getIngressResourceAnnotations getIngressTlsHosts
     getDefaultUIIngressName getResourceLabels getOwnerReference).
Local Abbreviation createSparkUI' :=
  (createSparkUIIngress getIngressResourceAnnotations getIngressTlsHosts
     getDefaultUIIngressName getResourceLabels getOwnerReference).

(** [createSparkUIIngress] sends exactly one object, the one that
    [buildIngress] builds, to the namespace of the application. *)
Lemma createSparkUIIngress_sent app service url kubeClient sent :
  snd (createSparkUI' app service url kubeClient sent)
  = (sent ++ [CreateIngress (v1beta2.Namespace app) (buildIngress' app service url)])%list.
Proof.
  unfold createSparkUIIngress. cbn.
  now destruct (Ingresses_Create _ _ _ _).
Qed.

Lemma lenMap_zero_lookup (m : option (gmap string string)) (k : string) :
  lenMap m = O -> lookupMap m k = None.
Proof.
  destruct m as [m|]; cbn; [|reflexivity].
  intros Hsize. apply map_size_empty_iff in Hsize. subst m. apply lookup_empty.
Qed.

Lemma subpath_true (path : string) :
  path <> EmptyString -> path <> "/" ->
  negb (String.eqb path EmptyString) && negb (String.eqb path "/") = true.
Proof.
  intros H1 H2.
  apply String.eqb_neq in H1. apply String.eqb_neq in H2. now rewrite H1, H2.
Qed.

Lemma subpath_false (path : string) :
  path = EmptyString \/ path = "/" ->
  negb (String.eqb path EmptyString) && negb (String.eqb path "/") = false.
Proof. intros [-> | ->]; reflexivity. Qed.

(** C1. The ingress object that [createSparkUIIngress] submits has one
    path. For a URL path that is neither empty nor ["/"], it is the URL
    path followed by the capture groups (the nine bytes [( / | $ ) ( . * )]
    without the blanks), and the object carries the
    annotation [nginx.ingress.kubernetes.io/rewrite-target] with the
    value ["/$2"]. For an empty path or ["/"], it is the URL path as it
    is, and the annotations are those of the caller (none when the
    caller gave none): no rewrite annotation is added. *)
Theorem createSparkUIIngress_path_and_rewrite app service url kubeClient sent :
  let ingress := buildIngress' app service url in
  let given := getIngressResourceAnnotations app in
  snd (createSparkUI' app service url kubeClient sent)
  = (sent ++ [CreateIngress (v1beta2.Namespace app) ingress])%list
  /\ (Url.Path url <> EmptyString -> Url.Path url <> "/" ->
      ingressPaths ingress = [Url.Path url +:+ "(/|$)(.*)"]
      /\ lookupMap (metav1.Annotations (extensions.ObjectMeta ingress))
           "nginx.ingress.kubernetes.io/rewrite-target" = Some "/$2")
  /\ (Url.Path url = EmptyString \/ Url.Path url = "/" ->
      ingressPaths ingress = [Url.Path url]
      /\ metav1.Annotations (extensions.ObjectMeta ingress)
         = (if (lenMap given =? 0)%nat then None else given)
      /\ lookupMap (metav1.Annotations (extensions.ObjectMeta ingress))
           "nginx.ingress.kubernetes.io/rewrite-target"
         = lookupMap given "nginx.ingress.kubernetes.io/rewrite-target").
Proof.
  intros ingress given. split; [apply createSparkUIIngress_sent|].
  subst ingress given. unfold buildIngress, ingressPaths. cbn.
  split.
  - intros H1 H2. rewrite (subpath_true _ H1 H2). cbn. split; [reflexivity|].
    apply lookup_insert_eq.
  - intros Hroot. rewrite (subpath_false _ Hroot). cbn. split; [reflexivity|].
    destruct (lenMap (getIngressResourceAnnotations app) =? 0)%nat eqn:Hlen; cbn.
    + split; [reflexivity|]. apply Nat.eqb_eq in Hlen.
      symmetry. now apply lenMap_zero_lookup.
    + split; reflexivity.
Qed.

(** C10. When the URL path is neither empty nor ["/"], the submitted
    ingress carries ["/$2"] under the rewrite-target key even if the
    annotations of the caller hold another value under that key: the
    rewrite is written after the annotations of the caller are taken
    over. Every other key keeps the value the caller gave. *)
Theorem createSparkUIIngress_rewrite_overwrites app service url kubeClient sent
    (given : gmap string string) (theirs : string) :
  getIngressResourceAnnotations app = Some given ->
  given !! "nginx.ingress.kubernetes.io/rewrite-target" = Some theirs ->
  Url.Path url <> EmptyString -> Url.Path url <> "/" ->
  exists ingress,
    snd (createSparkUI' app service url kubeClient sent)
    = (sent ++ [CreateIngress (v1beta2.Namespace app) ingress])%list
    /\ metav1.Annotations (extensions.ObjectMeta ingress)
       = Some (<["nginx.ingress.kubernetes.io/rewrite-target" := "/$2"]> given)
    /\ lookupMap (metav1.Annotations (extensions.ObjectMeta ingress))
         "nginx.ingress.kubernetes.io/rewrite-target" = Some "/$2".
Proof.
  intros Hgiven Htheirs H1 H2.
  exists (buildIngress' app service url).
  split; [apply createSparkUIIngress_sent|].
  unfold buildIngress. cbn.
  rewrite (subpath_true _ H1 H2), Hgiven. cbn.
  assert (size given <> O) as Hsize.
  { intros Hz. apply map_size_empty_iff in Hz. subst given.
    now rewrite lookup_empty in Htheirs. }
  apply Nat.eqb_neq in Hsize. rewrite Hsize. cbn.
  split; [reflexivity|]. apply lookup_insert_eq.
Qed.

End IngressProperties.

(** ** Both provisioners *)

Section ProvisionerProperties.

Variable arch : Arch.
Variable getIngressResourceAnnotations :
  v1beta2.SparkApplication -> option (gmap string string).
Variable getIngressTlsHosts :
  v1beta2.SparkApplication -> option (list extensions.IngressTLS).
Variable getDefaultUIIngressName : v1beta2.SparkApplication -> string.
Variable getDefaultUIServiceName : v1beta2.SparkApplication -> string.
Variable getResourceLabels :
  v1beta2.SparkApplication -> option (gmap string string).
Variable getOwnerReference : v1beta2.SparkApplication -> metav1.OwnerReference.
Variable getUIServiceType : v1beta2.SparkApplication -> string.
Variable getServiceAnnotations :
  v1beta2.SparkApplication -> option (gmap string string).
Variables SparkAppNameLabel SparkRoleLabel SparkDriverRole : string.

Local Abbreviation buildIngress' :=
  (buildIngress getIngressResourceAnnotations getIngressTlsHosts
     getDefaultUIIngressName getResourceLabels getOwnerReference).
Local Abbreviation createIngress' :=
  (createSparkUIIngress getIngressResourceAnnotations getIngressTlsHosts
     getDefaultUIIngressName getResourceLabels getOwnerReference).
Local Abbreviation buildService' :=
  (buildService getDefaultUIServiceName getResourceLabels getOwnerReference
     getUIServiceType getServiceAnnotations
     SparkAppNameLabel SparkRoleLabel SparkDriverRole).
Local Abbreviation createService' :=
  (createSparkUIService arch getDefaultUIServiceName getResourceLabels
     getOwnerReference getUIServiceType getServiceAnnotations
     SparkAppNameLabel SparkRoleLabel SparkDriverRole).

(** Once both ports are resolved, [createSparkUIService] sends exactly
    one object, the one that [buildService] builds. *)
Lemma createSparkUIService_sent app kubeClient sent port tPort :
  getUIServicePort arch app = (port, None) ->
  getUITargetPort arch app = (tPort, None) ->
  snd (createService' app kubeClient sent)
  = (sent ++ [CreateService (v1beta2.Namespace app)
                (buildService' app (getUIServicePortName app) port tPort)])%list.
Proof.
  intros Hport HtPort. unfold createSparkUIService.
  rewrite Hport, HtPort.
  destruct (Services_Create _ _ _ _) as [err|resp]; [reflexivity|].
  now destruct (apiv1.Ports (apiv1.Spec resp)).
Qed.

(** When a port does not resolve, nothing is sent. *)
Lemma createSparkUIService_port_error app kubeClient sent :
  snd (getUIServicePort arch app) <> None \/ snd (getUITargetPort arch app) <> None ->
  exists prefix port,
    createService' app kubeClient sent
    = (Err (Fmt.Errorf_d prefix port), sent)
    /\ ((prefix = "invalid Spark UI servicePort: "
         /\ port = fst (getUIServicePort arch app))
        \/ (prefix = "invalid Spark UI targetPort: "
            /\ port = fst (getUITargetPort arch app))).
Proof.
  intros Herr. unfold createSparkUIService.
  destruct (getUIServicePort arch app) as [port [e|]] eqn:Hport.
  - exists "invalid Spark UI servicePort: ", port. split; [reflexivity|]. now left.
  - destruct (getUITargetPort arch app) as [tPort [e|]] eqn:HtPort.
    + exists "invalid Spark UI targetPort: ", tPort. split; [reflexivity|]. now right.
    + cbn in Herr. now destruct Herr.
Qed.

(** C9. When the service annotations of the caller are empty (a nil map
    or a map without entries) and the ports resolve, the service object
    that [createSparkUIService] submits has no annotations field: it is
    nil, not an empty map. The same holds for the ingress object that
    [createSparkUIIngress] submits when the ingress annotations of the
    caller are empty and the URL path is empty or ["/"]. *)
Theorem submitted_annotations_omitted_when_empty
    app kubeClient sent service url port tPort :
  (lenMap (getServiceAnnotations app) = O ->
   getUIServicePort arch app = (port, None) ->
   getUITargetPort arch app = (tPort, None) ->
   exists submitted,
     snd (createService' app kubeClient sent)
     = (sent ++ [CreateService (v1beta2.Namespace app) submitted])%list
     /\ metav1.Annotations (apiv1.ObjectMeta submitted) = None)
  /\ (lenMap (getIngressResourceAnnotations app) = O ->
      Url.Path url = EmptyString \/ Url.Path url = "/" ->
      exists submitted,
        snd (createIngress' app service url kubeClient sent)
        = (sent ++ [CreateIngress (v1beta2.Namespace app) submitted])%list
        /\ metav1.Annotations (extensions.ObjectMeta submitted) = None).
Proof.
  split.
  - intros Hlen Hport HtPort. eexists. split.
    + exact (createSparkUIService_sent _ _ _ _ _ Hport HtPort).
    + unfold buildService. cbn. now rewrite Hlen.
  - intros Hlen Hroot. eexists. split.
    + apply createSparkUIIngress_sent.
    + unfold buildIngress. cbn.
      rewrite (subpath_false _ Hroot), Hlen. reflexivity.
Qed.

(** C4, as the code has it. When the store accepts the service and its
    answer has a port entry, the descriptor of [createSparkUIService]
    takes name, type, port, port name, target port and cluster IP from
    the answer of the store, and its annotations from the annotations
    of the caller. When the store accepts the ingress, the descriptor
    of [createSparkUIIngress] takes name, annotations and TLS list from
    the object that was submitted, and the URL from the argument; the
    answer of the store is not read. *)
Theorem descriptors_sources app kubeClient sent service url port tPort :
  (forall answer port0 ports,
     getUIServicePort arch app = (port, None) ->
     getUITargetPort arch app = (tPort, None) ->
     Services_Create kubeClient sent (v1beta2.Namespace app)
       (buildService' app (getUIServicePortName app) port tPort) = inr answer ->
     apiv1.Ports (apiv1.Spec answer) = port0 :: ports ->
     fst (createService' app kubeClient sent)
     = Ok {| serviceName := metav1.Name (apiv1.ObjectMeta answer);
             serviceType := apiv1.Type_ (apiv1.Spec answer);
             servicePort := apiv1.Port port0;
             servicePortName := apiv1.Name port0;
             targetPort := apiv1.TargetPort port0;
             serviceIP := apiv1.ClusterIP (apiv1.Spec answer);
             serviceAnnotations := getServiceAnnotations app |})
  /\ (forall answer,
       let submitted := buildIngress' app service url in
       Ingresses_Create kubeClient sent (v1beta2.Namespace app) submitted
       = inr answer ->
       fst (createIngress' app service url kubeClient sent)
       = inr {| ingressName := metav1.Name (extensions.ObjectMeta submitted);
                ingressURL := url;
                annotations := metav1.Annotations (extensions.ObjectMeta submitted);
                ingressTLS := extensions.TLS (extensions.Spec submitted) |}).
Proof.
  split.
  - intros answer port0 ports Hport HtPort Hanswer Hports.
    unfold createSparkUIService. rewrite Hport, HtPort, Hanswer, Hports.
    reflexivity.
  - intros answer submitted Hanswer. subst submitted.
    unfold createSparkUIIngress. cbn in *. now rewrite Hanswer.
Qed.

End ProvisionerProperties.

(** *** The provisioners on the sample application *)

Lemma createSparkUIIngress_path_and_rewrite_witness :
  let build := buildIngress (fun _ => None) (fun _ => None) Sample.ingressName
                 (fun _ => None) Sample.owner
                 (Sample.app ∅ None) Sample.service in
  (ingressPaths (build (Sample.url "job1.example.com" "/ui")) = ["/ui(/|$)(.*)"]
   /\ lookupMap (metav1.Annotations
                   (extensions.ObjectMeta (build (Sample.url "job1.example.com" "/ui"))))
        "nginx.ingress.kubernetes.io/rewrite-target" = Some "/$2")
  /\ (ingressPaths (build (Sample.url "job1.example.com" "/")) = ["/"]
      /\ metav1.Annotations
           (extensions.ObjectMeta (build (Sample.url "job1.example.com" "/"))) = None).
Proof.
  intros build. split.
  - apply (createSparkUIIngress_path_and_rewrite (fun _ => None) (fun _ => None)
             Sample.ingressName (fun _ => None) Sample.owner
             (Sample.app ∅ None) Sample.service
             (Sample.url "job1.example.com" "/ui") Sample.store []);
      discriminate.
  - destruct (createSparkUIIngress_path_and_rewrite (fun _ => None) (fun _ => None)
                Sample.ingressName (fun _ => None) Sample.owner
                (Sample.app ∅ None) Sample.service
                (Sample.url "job1.example.com" "/") Sample.store [])
      as (_ & _ & Hroot).
    destruct (Hroot (or_intror eq_refl)) as (Hpaths & Hannotations & _).
    split; [exact Hpaths | exact Hannotations].
Defined.

Lemma createSparkUIIngress_rewrite_overwrites_witness :
  exists ingress,
    snd (createSparkUIIngress
           (fun _ => Some {[ "nginx.ingress.kubernetes.io/rewrite-target" := "/$1" ]})
           (fun _ => None) Sample.ingressName (fun _ => None) Sample.owner
           (Sample.app ∅ None) Sample.service
           (Sample.url "job1.example.com" "/ui") Sample.store [])
    = [CreateIngress "ns1" ingress]
    /\ metav1.Annotations (extensions.ObjectMeta ingress)
       = Some (<["nginx.ingress.kubernetes.io/rewrite-target" := "/$2"]>
                 {[ "nginx.ingress.kubernetes.io/rewrite-target" := "/$1" ]})
    /\ lookupMap (metav1.Annotations (extensions.ObjectMeta ingress))
         "nginx.ingress.kubernetes.io/rewrite-target" = Some "/$2".
Proof.
  apply (createSparkUIIngress_rewrite_overwrites
           (fun _ => Some {[ "nginx.ingress.kubernetes.io/rewrite-target" := "/$1" ]})
           (fun _ => None) Sample.ingressName (fun _ => None) Sample.owner
           (Sample.app ∅ None) Sample.service
           (Sample.url "job1.example.com" "/ui") Sample.store []
           {[ "nginx.ingress.kubernetes.io/rewrite-target" := "/$1" ]} "/$1").
  - reflexivity.
  - vm_compute. reflexivity.
  - discriminate.
  - discriminate.
Defined.

Lemma submitted_annotations_omitted_when_empty_witness :
  (exists submitted,
     snd (createSparkUIService Arch64 Sample.serviceName (fun _ => None) Sample.owner
            (fun _ => "ClusterIP") (fun _ => Some ∅)
            "sparkoperator.k8s.io/app-name" "spark-role" "driver"
            (Sample.app ∅ None) Sample.store [])
     = [CreateService "ns1" submitted]
     /\ metav1.Annotations (apiv1.ObjectMeta submitted) = None)
  /\ (exists submitted,
        snd (createSparkUIIngress (fun _ => Some ∅) (fun _ => None)
               Sample.ingressName (fun _ => None) Sample.owner
               (Sample.app ∅ None) Sample.service
               (Sample.url "job1.example.com" "/") Sample.store [])
        = [CreateIngress "ns1" submitted]
        /\ metav1.Annotations (extensions.ObjectMeta submitted) = None).
Proof.
  destruct (submitted_annotations_omitted_when_empty Arch64
              (fun _ => Some ∅) (fun _ => None) Sample.ingressName Sample.serviceName
              (fun _ => None) Sample.owner (fun _ => "ClusterIP") (fun _ => Some ∅)
              "sparkoperator.k8s.io/app-name" "spark-role" "driver"
              (Sample.app ∅ None) Sample.store [] Sample.service
              (Sample.url "job1.example.com" "/") 4040 4040)
    as [Hservice Hingress].
  split.
  - apply Hservice; reflexivity.
  - apply Hingress; [reflexivity | right; reflexivity].
Defined.

Lemma descriptors_sources_witness :
  fst (createSparkUIService Arch64 Sample.serviceName (fun _ => None) Sample.owner
         (fun _ => "NodePort") (fun _ => None)
         "sparkoperator.k8s.io/app-name" "spark-role" "driver"
         (Sample.app {[ "spark.ui.port" := "4041" ]} None) Sample.store [])
  = Ok {| serviceName := "job1-ui-svc";
          serviceType := "ClusterIP";
          servicePort := 4041;
          servicePortName := "spark-driver-ui-port";
          targetPort := {| intstr.Type_ := intstr.Int; intstr.IntVal := 4041;
                           intstr.StrVal := EmptyString |};
          serviceIP := "10.0.0.7";
          serviceAnnotations := None |}
  /\ fst (createSparkUIIngress (fun _ => None) (fun _ => None)
            Sample.ingressName (fun _ => None) Sample.owner
            (Sample.app ∅ None) Sample.service
            (Sample.url "job1.example.com" "/") Sample.store [])
     = inr {| ingressName := "job1-ui-ingress";
              ingressURL := Sample.url "job1.example.com" "/";
              annotations := None;
              ingressTLS := None |}.
Proof.
  destruct (descriptors_sources Arch64
              (fun _ => None) (fun _ => None) Sample.ingressName Sample.serviceName
              (fun _ => None) Sample.owner (fun _ => "NodePort") (fun _ => None)
              "sparkoperator.k8s.io/app-name" "spark-role" "driver"
              (Sample.app {[ "spark.ui.port" := "4041" ]} None) Sample.store []
              Sample.service (Sample.url "job1.example.com" "/") 4041 4041)
    as [Hservice _].
  destruct (descriptors_sources Arch64
              (fun _ => None) (fun _ => None) Sample.ingressName Sample.serviceName
              (fun _ => None) Sample.owner (fun _ => "NodePort") (fun _ => None)
              "sparkoperator.k8s.io/app-name" "spark-role" "driver"
              (Sample.app ∅ None) Sample.store []
              Sample.service (Sample.url "job1.example.com" "/") 4040 4040)
    as [_ Hingress].
  split.
  - exact (Hservice _ _ _ eq_refl eq_refl eq_refl eq_refl).
  - exact (Hingress _ eq_refl).
Defined.

(** C4, as the specification states it, fails: on the sample store, which
    adds an annotation to what it stores, the descriptor of the service
    has the annotations of the caller (none) and not those of the answer,
    and the descriptor of the ingress has the annotations of the object
    that was submitted (none) and not those of the answer. *)
Lemma descriptors_not_from_answer :
  let app := Sample.app ∅ None in
  let submitted :=
    buildService Sample.serviceName (fun _ => None) Sample.owner
      (fun _ => "ClusterIP") (fun _ => None)
      "sparkoperator.k8s.io/app-name" "spark-role" "driver"
      app "spark-driver-ui-port" 4040 4040 in
  let ingress :=
    buildIngress (fun _ => None) (fun _ => None) Sample.ingressName
      (fun _ => None) Sample.owner app Sample.service
      (Sample.url "job1.example.com" "/") in
  exists descriptor answer ingressDescriptor ingressAnswer,
    createSparkUIService Arch64 Sample.serviceName (fun _ => None) Sample.owner
      (fun _ => "ClusterIP") (fun _ => None)
      "sparkoperator.k8s.io/app-name" "spark-role" "driver"
      app Sample.store []
    = (Ok descriptor, [CreateService "ns1" submitted])
    /\ Services_Create Sample.store [] "ns1" submitted = inr answer
    /\ serviceAnnotations descriptor = None
    /\ metav1.Annotations (apiv1.ObjectMeta answer)
       = Some {[ "admission/stamped" := "true" ]}
    /\ createSparkUIIngress (fun _ => None) (fun _ => None) Sample.ingressName
         (fun _ => None) Sample.owner app Sample.service
         (Sample.url "job1.example.com" "/") Sample.store []
       = (inr ingressDescriptor, [CreateIngress "ns1" ingress])
    /\ Ingresses_Create Sample.store [] "ns1" ingress = inr ingressAnswer
    /\ annotations ingressDescriptor = None
    /\ metav1.Annotations (extensions.ObjectMeta ingressAnswer)
       = Some {[ "admission/stamped" := "true" ]}.
Proof.
  intros app submitted ingress.
  do 4 eexists.
  split; [vm_compute; reflexivity|].
  split; [vm_compute; reflexivity|].
  split; [reflexivity|].
  split; [vm_compute; reflexivity|].
  split; [vm_compute; reflexivity|].
  split; [vm_compute; reflexivity|].
  split; [reflexivity|].
  vm_compute; reflexivity.
Qed.

(** ** strconv.Atoi *)

Section AtoiProperties.

Lemma byte_val_range (c : ascii) : 0 <= byte_val c < 256.
Proof.
  unfold byte_val. pose proof (N_ascii_bounded c). lia.
Qed.

Lemma byte_val_zero : byte_val "0" = 48.
Proof. reflexivity. Qed.

Lemma between_digit (c : ascii) :
  between "0" c "9" = true <-> 48 <= byte_val c <= 57.
Proof.
  unfold between. change (byte_val "0") with 48. change (byte_val "9") with 57.
  rewrite andb_true_iff, !Z.leb_le. tauto.
Qed.

Lemma between_not_digit (c : ascii) :
  between "0" c "9" = false <-> byte_val c < 48 \/ 57 < byte_val c.
Proof.
  unfold between. change (byte_val "0") with 48. change (byte_val "9") with 57.
  rewrite andb_false_iff, !Z.leb_gt. tauto.
Qed.

Lemma int_small (arch : Arch) (z : Z) :
  - 2 ^ (IntSize arch - 1) <= z < 2 ^ (IntSize arch - 1) -> int arch z = z.
Proof.
  unfold int, wrap_signed.
  destruct arch; cbn [IntSize]; intros Hz; rewrite Z.mod_small; lia.
Qed.

Lemma int_bounds (arch : Arch) : 2 ^ 31 <= 2 ^ (IntSize arch - 1).
Proof. destruct arch; cbn [IntSize]; lia. Qed.

Lemma digitsValue_ge (s : string) (n : Z) :
  Spec.allDigits s = true -> 0 <= n -> n <= Spec.digitsValue n s.
Proof.
  revert n. induction s as [|c s IH]; intros n Hs Hn; cbn in *; [lia|].
  apply andb_true_iff in Hs as [Hc Hs]. apply between_digit in Hc.
  rewrite byte_val_zero.
  specialize (IH (n * 10 + (byte_val c - 48)) Hs). lia.
Qed.

Lemma digitsValue_lt_pow (s : string) (n : Z) :
  Spec.allDigits s = true -> 0 <= n ->
  Spec.digitsValue n s < (n + 1) * 10 ^ len s.
Proof.
  revert n. induction s as [|c s IH]; intros n Hs Hn; cbn [Spec.digitsValue].
  - unfold len. cbn. lia.
  - cbn in Hs. apply andb_true_iff in Hs as [Hc Hs]. apply between_digit in Hc.
    rewrite byte_val_zero.
    specialize (IH (n * 10 + (byte_val c - 48)) Hs ltac:(lia)).
    unfold len in *. cbn [String.length]. rewrite Nat2Z.inj_succ, Z.pow_succ_r by lia.
    pose proof (Z.pow_pos_nonneg 10 (Z.of_nat (String.length s)) ltac:(lia) ltac:(lia)).
    nia.
Qed.

Lemma gtb_false (a b : Z) : a <= b -> (a >? b) = false.
Proof. intros H. rewrite Z.gtb_ltb. now apply Z.ltb_ge. Qed.

Lemma geb_false (a b : Z) : a < b -> (a >=? b) = false.
Proof. intros H. rewrite Z.geb_leb. now apply Z.leb_gt. Qed.

Lemma geb_true (a b : Z) : b <= a -> (a >=? b) = true.
Proof. intros H. rewrite Z.geb_leb. now apply Z.leb_le. Qed.

Lemma digit_step (c : ascii) :
  between "0" c "9" = true ->
  (byte_val c - byte_val "0") mod 256 = byte_val c - 48
  /\ 0 <= byte_val c - 48 <= 9.
Proof.
  intros Hc. apply between_digit in Hc. rewrite byte_val_zero.
  rewrite Z.mod_small; lia.
Qed.

Lemma not_digit_step (c : ascii) :
  between "0" c "9" = false ->
  ((byte_val c - byte_val "0") mod 256 >? 9) = true.
Proof.
  intros Hc. apply between_not_digit in Hc. rewrite byte_val_zero.
  pose proof (byte_val_range c) as Hr. apply Z.gtb_lt.
  destruct Hc as [Hlow|Hhigh].
  - replace ((byte_val c - 48) mod 256) with (byte_val c + 208); [lia|].
    apply (Z.mod_unique _ _ (-1)); lia.
  - rewrite Z.mod_small; lia.
Qed.

(** The fast loop on a run of digits whose value fits. *)
Lemma atoiLoop_digits (arch : Arch) (s : string) (n : Z) :
  Spec.allDigits s = true -> 0 <= n ->
  Spec.digitsValue n s < 2 ^ (IntSize arch - 1) ->
  Strconv.atoiLoop arch n s = Some (Spec.digitsValue n s).
Proof.
  revert n. induction s as [|c s IH]; intros n Hs Hn Hbound; [reflexivity|].
  cbn in Hs. apply andb_true_iff in Hs as [Hc Hs].
  cbn [Strconv.atoiLoop Spec.digitsValue] in *.
  destruct (digit_step c Hc) as [-> Hd]. rewrite byte_val_zero in *.
  rewrite (gtb_false _ 9) by lia.
  pose proof (digitsValue_ge s (n * 10 + (byte_val c - 48)) Hs ltac:(lia)).
  pose proof (int_bounds arch).
  rewrite int_small by lia.
  apply IH; [assumption | lia | assumption].
Qed.

Lemma atoiLoop_not_digits (arch : Arch) (s : string) (n : Z) :
  Spec.allDigits s = false -> Strconv.atoiLoop arch n s = None.
Proof.
  revert n. induction s as [|c s IH]; intros n Hs; [discriminate|].
  cbn in Hs. cbn [Strconv.atoiLoop].
  destruct (between "0" c "9") eqn:Hc.
  - destruct (digit_step c Hc) as [-> Hd].
    rewrite (gtb_false _ 9) by lia.
    now apply IH.
  - now rewrite (not_digit_step c Hc).
Qed.

Lemma uint64_small (z : Z) : 0 <= z < 2 ^ 64 -> uint64 z = z.
Proof. intros Hz. unfold uint64, wrap_unsigned. now apply Z.mod_small. Qed.

Lemma int64_small (z : Z) : - 2 ^ 63 <= z < 2 ^ 63 -> int64 z = z.
Proof.
  intros Hz. unfold int64, wrap_signed. rewrite Z.mod_small; lia.
Qed.

(** The loop of [ParseUint] on a run of digits whose value fits. *)
Lemma parseUintLoop_digits (maxVal : Z) (s : string) (n : Z) :
  Spec.allDigits s = true -> 0 <= n ->
  Spec.digitsValue n s <= maxVal -> maxVal < 2 ^ 64 ->
  Strconv.parseUintLoop maxVal n s = (Spec.digitsValue n s, None).
Proof.
  revert n. induction s as [|c s IH]; intros n Hs Hn Hbound Hmax; [reflexivity|].
  cbn in Hs. apply andb_true_iff in Hs as [Hc Hs].
  cbn [Strconv.parseUintLoop Spec.digitsValue] in *. rewrite Hc.
  pose proof (proj1 (between_digit c) Hc) as Hd. rewrite byte_val_zero in *.
  pose proof (digitsValue_ge s (n * 10 + (byte_val c - 48)) Hs ltac:(lia)).
  change (Strconv.maxUint64 / 10 + 1) with 1844674407370955162.
  rewrite (geb_false _ 10) by lia.
  rewrite (geb_false n) by lia.
  rewrite (uint64_small (n * 10)) by lia.
  rewrite (uint64_small (n * 10 + (byte_val c - 48))) by lia.
  replace (n * 10 + (byte_val c - 48) <? n * 10) with false
    by (symmetry; apply Z.ltb_ge; lia).
  rewrite (gtb_false _ maxVal) by lia. cbn [orb].
  apply IH; [assumption | lia | assumption | assumption].
Qed.

(** The loop of [ParseUint] on anything else: an error, and zero with a
    syntax error. *)
Lemma parseUintLoop_not_digits (maxVal : Z) (s : string) (n : Z) :
  Spec.allDigits s = false ->
  exists v e, Strconv.parseUintLoop maxVal n s = (v, Some e)
              /\ (e = ErrSyntax -> v = 0) /\ (e = ErrRange -> v = maxVal).
Proof.
  revert n. induction s as [|c s IH]; intros n Hs; [discriminate|].
  cbn in Hs. cbn [Strconv.parseUintLoop].
  destruct (between "0" c "9") eqn:Hc; cbn in Hs.
  - destruct (_ >=? 10); [now exists 0, ErrSyntax|].
    destruct (n >=? _); [now exists maxVal, ErrRange|].
    destruct (_ || _); [now exists maxVal, ErrRange|].
    now apply IH.
  - destruct (_ && _) eqn:Hletter; [|now exists 0, ErrSyntax].
    apply andb_true_iff in Hletter as [Hlow _]. apply Z.leb_le in Hlow.
    change (byte_val "a") with 97 in *.
    rewrite geb_true by lia.
    now exists 0, ErrSyntax.
Qed.

Lemma isDigits_inv (s : string) :
  Spec.isDigits s = true -> s <> EmptyString /\ Spec.allDigits s = true.
Proof.
  unfold Spec.isDigits. intros H. apply andb_true_iff in H as [Hne Hs].
  split; [|assumption]. intros ->. discriminate.
Qed.

Lemma isDigits_false (s : string) :
  Spec.isDigits s = false -> s = EmptyString \/ Spec.allDigits s = false.
Proof.
  unfold Spec.isDigits. intros H. apply andb_false_iff in H as [Hne|Hs].
  - left. destruct s; [reflexivity|discriminate].
  - now right.
Qed.

Lemma ParseUint_digits (arch : Arch) (s : string) :
  Spec.isDigits s = true -> Spec.digitsValue 0 s <= 2 ^ 31 ->
  Strconv.ParseUint arch s = (Spec.digitsValue 0 s, None).
Proof.
  intros Hs Hbound. apply isDigits_inv in Hs as [Hne Hs].
  unfold Strconv.ParseUint. destruct s as [|c s]; [congruence|].
  apply parseUintLoop_digits; [assumption | lia | |];
    destruct arch; cbn [IntSize]; lia.
Qed.

Lemma ParseUint_not_digits (arch : Arch) (s : string) :
  Spec.isDigits s = false ->
  exists v e, Strconv.ParseUint arch s = (v, Some e)
              /\ (e = ErrSyntax -> v = 0)
              /\ (e = ErrRange -> v = 2 ^ IntSize arch - 1).
Proof.
  intros Hs. apply isDigits_false in Hs as [-> | Hs].
  - now exists 0, ErrSyntax.
  - unfold Strconv.ParseUint. destruct s as [|c s]; [discriminate|].
    now apply parseUintLoop_not_digits.
Qed.

Lemma ParseInt_decimal (arch : Arch) (s : string) :
  Spec.isDecimal s = true -> Spec.inInt32 (Spec.decimalValue s) ->
  Strconv.ParseInt arch s = (Spec.decimalValue s, None).
Proof.
  destruct s as [|c s]; [discriminate|].
  unfold Spec.isDecimal, Spec.decimalValue, Spec.inInt32, Strconv.ParseInt.
  pose proof (int_bounds arch) as Hint.
  assert (2 ^ (IntSize arch - 1) <= 2 ^ 63) as Hint' by (destruct arch; cbn; lia).
  destruct (Ascii.eqb c "-") eqn:Hminus; cbn [orb negb andb].
  - intros Hs Hv. rewrite orb_true_r.
    rewrite (ParseUint_digits arch s Hs) by lia.
    rewrite gtb_false by lia.
    rewrite (int64_small (Spec.digitsValue 0 s))
      by (pose proof (digitsValue_ge s 0 (proj2 (isDigits_inv s Hs))); lia).
    rewrite int64_small
      by (pose proof (digitsValue_ge s 0 (proj2 (isDigits_inv s Hs))); lia).
    reflexivity.
  - rewrite orb_false_r.
    destruct (Ascii.eqb c "+") eqn:Hplus; intros Hs Hv;
      rewrite (ParseUint_digits arch _ Hs) by lia;
      rewrite geb_false by lia;
      rewrite int64_small
        by (pose proof (digitsValue_ge _ 0 (proj2 (isDigits_inv _ Hs))); lia);
      reflexivity.
Qed.

Lemma ParseInt_not_decimal (arch : Arch) (s : string) :
  Spec.isDecimal s = false ->
  exists v e, Strconv.ParseInt arch s = (v, Some e) /\ (e = ErrSyntax -> v = 0).
Proof.
  destruct s as [|c s]; [now exists 0, ErrSyntax|].
  unfold Spec.isDecimal, Strconv.ParseInt. rewrite (orb_comm (Ascii.eqb c "+")).
  set (s1 := if Ascii.eqb c "-" || Ascii.eqb c "+" then s else String c s).
  replace (if Ascii.eqb c "-" || Ascii.eqb c "+"
           then Spec.isDigits s else Spec.isDigits (String c s))
    with (Spec.isDigits s1) by (subst s1; now destruct (_ || _)).
  intros Hs. destruct (ParseUint_not_digits arch s1 Hs) as (v & e & -> & Hsyn & Hrange).
  destruct e; [now exists 0, ErrSyntax|].
  rewrite (Hrange eq_refl).
  destruct (Ascii.eqb c "-"); cbn [negb andb].
  - rewrite (proj2 (Z.gtb_lt _ _)) by (destruct arch; cbn; lia).
    eexists _, ErrRange. split; [reflexivity|discriminate].
  - rewrite geb_true by (destruct arch; cbn; lia).
    eexists _, ErrRange. split; [reflexivity|discriminate].
Qed.

Lemma isSign_spec (c : ascii) :
  Strconv.isSign c = Ascii.eqb c "-" || Ascii.eqb c "+".
Proof. reflexivity. Qed.

Lemma len_String (c : ascii) (s : string) : len (String c s) = len s + 1.
Proof. unfold len. cbn [String.length]. lia. Qed.

Lemma len_nonneg (s : string) : 0 <= len s.
Proof. unfold len. lia. Qed.

Lemma len_zero (s : string) : len s = 0 -> s = EmptyString.
Proof. destruct s; [reflexivity|]. rewrite len_String. pose proof (len_nonneg s). lia. Qed.

(** In the fast path the digits are too few to overflow. *)
Lemma fast_path_bound (arch : Arch) (s : string) :
  ((IntSize arch =? 32) && ((0 <? len s + 1) && (len s + 1 <? 10))
   || (IntSize arch =? 64) && ((0 <? len s + 1) && (len s + 1 <? 19))) = true ->
  Spec.allDigits s = true ->
  Spec.digitsValue 0 s < 2 ^ (IntSize arch - 1).
Proof.
  intros Hfast Hs.
  pose proof (digitsValue_lt_pow s 0 Hs ltac:(lia)) as Hpow.
  pose proof (len_nonneg s) as Hlen.
  destruct arch; cbn [IntSize] in *.
  - change (32 =? 32) with true in Hfast. change (32 =? 64) with false in Hfast.
    cbn [andb] in Hfast. rewrite orb_false_r in Hfast.
    apply andb_true_iff in Hfast as [_ Hfast]. apply Z.ltb_lt in Hfast.
    assert (10 ^ len s <= 10 ^ 8) by (apply Z.pow_le_mono_r; lia). lia.
  - change (64 =? 32) with false in Hfast. change (64 =? 64) with true in Hfast.
    cbn [andb orb] in Hfast.
    apply andb_true_iff in Hfast as [_ Hfast]. apply Z.ltb_lt in Hfast.
    assert (10 ^ len s <= 10 ^ 17) by (apply Z.pow_le_mono_r; lia). lia.
Qed.

(** [Atoi] on a base-10 integer that fits 32 bits. *)
Lemma Atoi_decimal (arch : Arch) (s : string) :
  Spec.isDecimal s = true -> Spec.inInt32 (Spec.decimalValue s) ->
  Strconv.Atoi arch s = (Spec.decimalValue s, None).
Proof.
  intros Hs Hv. unfold Strconv.Atoi.
  pose proof (int_bounds arch) as Hint.
  destruct (_ || _) eqn:Hfast.
  - destruct s as [|c s]; [discriminate|].
    rewrite len_String in Hfast.
    unfold Spec.isDecimal, Spec.decimalValue, Spec.inInt32 in *.
    rewrite isSign_spec.
    destruct (Ascii.eqb c "-") eqn:Hminus; cbn [orb] in *.
    + apply isDigits_inv in Hs as [Hne Hs].
      replace (len s <? 1) with false
        by (symmetry; apply Z.ltb_ge; destruct s; [congruence|];
            rewrite len_String; pose proof (len_nonneg s); lia).
      cbn [andb].
      pose proof (fast_path_bound arch s Hfast Hs).
      rewrite atoiLoop_digits by (assumption || lia).
      rewrite int_small by lia. reflexivity.
    + destruct (Ascii.eqb c "+") eqn:Hplus; cbn [andb].
      * apply isDigits_inv in Hs as [Hne Hs].
        replace (len s <? 1) with false
          by (symmetry; apply Z.ltb_ge; destruct s; [congruence|];
              rewrite len_String; pose proof (len_nonneg s); lia).
        rewrite atoiLoop_digits by (assumption || lia). reflexivity.
      * apply isDigits_inv in Hs as [Hne Hs].
        rewrite atoiLoop_digits by (assumption || lia). reflexivity.
  - rewrite (ParseInt_decimal arch s Hs Hv).
    unfold Spec.inInt32 in Hv. rewrite int_small by lia. reflexivity.
Qed.

(** [Atoi] on anything else: an error that names the string; zero with
    a syntax error; a syntax error for a string of fewer than 10
    bytes. *)
Lemma Atoi_not_decimal (arch : Arch) (s : string) :
  Spec.isDecimal s = false ->
  exists v e, Strconv.Atoi arch s = (v, Some (NumError "Atoi" s e))
              /\ (e = ErrSyntax -> v = 0)
              /\ (len s < 10 -> e = ErrSyntax).
Proof.
  intros Hs. unfold Strconv.Atoi.
  destruct (_ || _) eqn:Hfast.
  - exists 0, ErrSyntax. split; [|tauto].
    destruct s as [|c s]; [reflexivity|].
    unfold Spec.isDecimal in Hs. rewrite isSign_spec.
    destruct (Ascii.eqb c "-" || Ascii.eqb c "+"); cbn [andb].
    + apply isDigits_false in Hs as [-> | Hs]; [reflexivity|].
      destruct (len s <? 1); [reflexivity|].
      now rewrite atoiLoop_not_digits.
    + apply isDigits_false in Hs as [? | Hs]; [discriminate|].
      now rewrite atoiLoop_not_digits.
  - destruct (ParseInt_not_decimal arch s Hs) as (v & e & Hparse & Hsyn).
    rewrite Hparse.
    exists (int arch v), e. split; [reflexivity|]. split.
    + intros He. rewrite (Hsyn He). now destruct arch.
    + intros Hlen. pose proof (len_nonneg s).
      assert (len s = 0) as Hzero.
      { destruct arch; cbn [IntSize] in Hfast.
        - change (32 =? 32) with true in Hfast. change (32 =? 64) with false in Hfast.
          cbn [andb] in Hfast. rewrite orb_false_r in Hfast.
          apply andb_false_iff in Hfast as [Hfast|Hfast];
            apply Z.ltb_ge in Hfast; lia.
        - change (64 =? 32) with false in Hfast. change (64 =? 64) with true in Hfast.
          cbn [andb orb] in Hfast.
          apply andb_false_iff in Hfast as [Hfast|Hfast];
            apply Z.ltb_ge in Hfast; lia. }
      apply len_zero in Hzero. subst s. cbn in Hparse. congruence.
Qed.

End AtoiProperties.

(** ** The target port *)

(** C3, as the code has it. When the conf map holds a base-10 integer
    (digits with an optional sign) under [spark.ui.port] and that integer
    fits a signed 32-bit integer, [getUITargetPort] returns exactly it,
    with no error. When it holds anything that is not a base-10 integer,
    [getUITargetPort] returns the error of [strconv.Atoi], which names
    the value; the port is zero whenever that error is a syntax error,
    which it is for every such value of fewer than 10 bytes. When the key
    is absent, it returns the default port 4040 with no error. *)
Theorem getUITargetPort_conf_port (arch : Arch) (app : v1beta2.SparkApplication) :
  (forall v,
     v1beta2.SparkConf (v1beta2.Spec app) !! "spark.ui.port" = Some v ->
     Spec.isDecimal v = true -> Spec.inInt32 (Spec.decimalValue v) ->
     getUITargetPort arch app = (Spec.decimalValue v, None))
  /\ (forall v,
     v1beta2.SparkConf (v1beta2.Spec app) !! "spark.ui.port" = Some v ->
     Spec.isDecimal v = false ->
     exists port kind,
       getUITargetPort arch app = (port, Some (NumError "Atoi" v kind))
       /\ (kind = ErrSyntax -> port = 0)
       /\ (len v < 10 -> kind = ErrSyntax))
  /\ (v1beta2.SparkConf (v1beta2.Spec app) !! "spark.ui.port" = None ->
     getUITargetPort arch app = (4040, None)).
Proof.
  unfold getUITargetPort, sparkUIPortConfigurationKey. repeat split.
  - intros v -> Hv Hrange. rewrite (Atoi_decimal arch v Hv Hrange).
    unfold Spec.inInt32 in Hrange. unfold int32, wrap_signed.
    rewrite Z.mod_small by lia. f_equal. lia.
  - intros v -> Hv.
    destruct (Atoi_not_decimal arch v Hv) as (port & kind & -> & Hsyn & Hlen).
    exists (int32 port), kind. split; [reflexivity|]. split; [|assumption].
    intros Hkind. now rewrite (Hsyn Hkind).
  - intros ->. reflexivity.
Qed.

Lemma getUITargetPort_conf_port_witness :
  getUITargetPort Arch64 (Sample.app {[ "spark.ui.port" := "-4041" ]} None)
  = (-4041, None)
  /\ (exists port kind,
        getUITargetPort Arch32 (Sample.app {[ "spark.ui.port" := "abc" ]} None)
        = (port, Some (NumError "Atoi" "abc" kind))
        /\ (kind = ErrSyntax -> port = 0)
        /\ (len "abc" < 10 -> kind = ErrSyntax))
  /\ getUITargetPort Arch64 (Sample.app ∅ None) = (4040, None).
Proof.
  split; [|split].
  - apply (proj1 (getUITargetPort_conf_port Arch64
                    (Sample.app {[ "spark.ui.port" := "-4041" ]} None)) "-4041").
    + vm_compute. reflexivity.
    + reflexivity.
    + unfold Spec.inInt32. split; [vm_compute; discriminate | vm_compute; reflexivity].
  - apply (proj1 (proj2 (getUITargetPort_conf_port Arch32
                    (Sample.app {[ "spark.ui.port" := "abc" ]} None))) "abc").
    + vm_compute. reflexivity.
    + reflexivity.
  - apply (proj2 (proj2 (getUITargetPort_conf_port Arch64 (Sample.app ∅ None)))).
    vm_compute. reflexivity.
Defined.

(** C3, as the specification states it, fails twice. A base-10 integer
    that does not fit 32 bits is cut to its low 32 bits without an error:
    ["4294971336"] gives port 4040. A value that is not a number can give
    a range error and a port that is not zero: twenty nines and an [x]
    give port -1. *)
Lemma getUITargetPort_not_exact_not_zero :
  Spec.isDecimal "4294971336" = true
  /\ Spec.decimalValue "4294971336" = 4294971336
  /\ getUITargetPort Arch64 (Sample.app {[ "spark.ui.port" := "4294971336" ]} None)
     = (4040, None)
  /\ Spec.isDecimal "99999999999999999999x" = false
  /\ getUITargetPort Arch64
       (Sample.app {[ "spark.ui.port" := "99999999999999999999x" ]} None)
     = (-1, Some (NumError "Atoi" "99999999999999999999x" ErrRange)).
Proof. repeat split; vm_compute; reflexivity. Qed.

(** ** A conf map port that is not a number *)


Section InvalidPort.

Variable arch : Arch.
Variable getDefaultUIServiceName : v1beta2.SparkApplication -> string.
Variable getResourceLabels :
  v1beta2.SparkApplication -> option (gmap string string).
Variable getOwnerReference : v1beta2.SparkApplication -> metav1.OwnerReference.
Variable getUIServiceType : v1beta2.SparkApplication -> string.
Variable getServiceAnnotations :
  v1beta2.SparkApplication -> option (gmap string string).
Variables SparkAppNameLabel SparkRoleLabel SparkDriverRole : string.


End InvalidPort.


(** C2. For the conf map value ["abc"], [createSparkUIService] returns an
    error and sends nothing, but the message of the error does not hold
    the value: it ends in the digits of the zero port that the failed
    parse left, with the UI options absent (the service port fails) and
    with a service port set in them (the target port fails). *)
Theorem createSparkUIService_invalid_port_message :
  createSparkUIService Arch64 Sample.serviceName (fun _ => None) Sample.owner
    (fun _ => "ClusterIP") (fun _ => None)
    "sparkoperator.k8s.io/app-name" "spark-role" "driver"
    (Sample.app {[ "spark.ui.port" := "abc" ]} None) Sample.store []
  = (Err (errorString "invalid Spark UI servicePort: 0"), [])
  /\ Strings.Contains "invalid Spark UI servicePort: 0" "abc" = false
  /\ createSparkUIService Arch64 Sample.serviceName (fun _ => None) Sample.owner
       (fun _ => "ClusterIP") (fun _ => None)
       "sparkoperator.k8s.io/app-name" "spark-role" "driver"
       (Sample.app {[ "spark.ui.port" := "abc" ]}
          (Some {| v1beta2.ServicePort := Some 8080;
                   v1beta2.ServicePortName := None |}))
       Sample.store []
     = (Err (errorString "invalid Spark UI targetPort: 0"), [])
  /\ Strings.Contains "invalid Spark UI targetPort: 0" "abc" = false.
Proof. repeat split; vm_compute; reflexivity. Qed.

(** ** regexp: the placeholder patterns *)

Lemma ingressAppNameURLRegex_compiles :
  ingressAppNameURLRegex = Spec.placeholderPattern "appName".
Proof. vm_compute. reflexivity. Qed.

Lemma ingressAppNamespaceURLRegex_compiles :
  ingressAppNamespaceURLRegex = Spec.placeholderPattern "appNamespace".
Proof. vm_compute. reflexivity. Qed.

#[local] Arguments String.append !s1 s2 : simpl nomatch.

Section Matching.

Lemma append_assoc (a b c : string) : (a +:+ b) +:+ c = a +:+ (b +:+ c).
Proof. induction a as [|x a IH]; simpl; [reflexivity|]. now f_equal. Qed.

Lemma length_append (a b : string) :
  String.length (a +:+ b) = (String.length a + String.length b)%nat.
Proof. induction a as [|x a IH]; simpl; [reflexivity|]. now f_equal. Qed.

(** A match of literal bytes followed by [re]. *)
Lemma matchHere_literals_sound (lit : string) (re : Regexp.Regexp) (s : string) (n : nat) :
  Regexp.matchHere (Spec.literals lit ++ re)%list s = Some n ->
  exists rest k, s = lit +:+ rest /\ Regexp.matchHere re rest = Some k
                 /\ n = (String.length lit + k)%nat.
Proof.
  revert s n. induction lit as [|c lit IH]; intros s n; cbn [Spec.literals app].
  - intros Hm. now exists s, n.
  - cbn [Regexp.matchHere]. destruct s as [|x s]; [discriminate|].
    cbn [Regexp.member]. destruct (Ascii.eqb c x) eqn:Hc; [|discriminate].
    apply Ascii.eqb_eq in Hc. subst x.
    destruct (Regexp.matchHere (Spec.literals lit ++ re)%list s) as [n'|] eqn:Hm; [|discriminate].
    intros [= <-]. destruct (IH s n' Hm) as (rest & k & -> & Hk & ->).
    now exists rest, k.
Qed.


(** A match of [\s*] followed by [next]. *)
Lemma star_space_sound (next : string -> option nat) (s : string) (n : nat) :
  Regexp.star Regexp.Space next s = Some n ->
  exists w rest k, s = w +:+ rest /\ Spec.allSpace w = true
                   /\ next rest = Some k /\ n = (String.length w + k)%nat.
Proof.
  revert n. induction s as [|c s IH]; intros n; cbn [Regexp.star].
  - intros Hn. now exists EmptyString, EmptyString, n.
  - cbn [Regexp.member].
    destruct (Regexp.isSpace c) eqn:Hc;
      [destruct (Regexp.star Regexp.Space next s) as [n'|] eqn:Hs|].
    + intros [= <-]. destruct (IH n' eq_refl) as (w & rest & k & -> & Hw & Hk & ->).
      exists (String c w), rest, k. cbn. now rewrite Hc, Hw.
    + intros Hn. now exists EmptyString, (String c s), n.
    + intros Hn. now exists EmptyString, (String c s), n.
Qed.


(** What [matchHere] finds at the head of a string is an occurrence of
    the placeholder, and every occurrence is found. *)
Lemma matchHere_placeholder_sound (token s : string) (n : nat) :
  Regexp.matchHere (Spec.placeholderPattern token) s = Some n ->
  exists m rest, s = m +:+ rest /\ Spec.Placeholder token m /\ n = String.length m.
Proof.
  unfold Spec.placeholderPattern. intros Hm.
  apply matchHere_literals_sound in Hm as (s1 & n1 & -> & Hm & ->).
  cbn [Regexp.matchHere] in Hm.
  apply star_space_sound in Hm as (w1 & s2 & n2 & -> & Hw1 & Hm & ->).
  apply matchHere_literals_sound in Hm as (s3 & n3 & -> & Hm & ->).
  cbn [Regexp.matchHere] in Hm.
  apply star_space_sound in Hm as (w2 & s4 & n4 & -> & Hw2 & Hm & ->).
  apply (matchHere_literals_sound "}}" nil) in Hm as (rest & n5 & -> & Hm & ->).
  cbn in Hm. injection Hm as <-.
  exists ("{{" +:+ w1 +:+ "$" +:+ token +:+ w2 +:+ "}}"), rest. split; [|split].
  - cbn. rewrite !append_assoc. cbn. now rewrite !append_assoc.
  - now exists w1, w2.
  - cbn. rewrite !length_append. cbn. rewrite !length_append. cbn. lia.
Qed.


Lemma Placeholder_head (token m : string) :
  Spec.Placeholder token m -> exists m', m = String "{" m'.
Proof. intros (w1 & w2 & _ & _ & ->). eexists. reflexivity. Qed.







Lemma Cut_absent (s : string) (c : ascii) :
  Strings.ContainsByte s c = false -> Strings.Cut s c = (s, EmptyString, false).
Proof.
  induction s as [|x s IH]; [reflexivity|]. cbn [Strings.ContainsByte Strings.Cut].
  intros H. apply orb_false_iff in H as [-> H]. now rewrite (IH H).
Qed.



Lemma matchHere_placeholder_nonempty (token s : string) :
  Regexp.matchHere (Spec.placeholderPattern token) s <> Some O.
Proof.
  intros Hmatch.
  apply matchHere_placeholder_sound in Hmatch as (m & rest & Heq & Hm & Hlen).
  destruct (Placeholder_head _ _ Hm) as [m' ->]. discriminate.
Qed.

End Matching.

(** ** net/url: the scheme of a parsed URL *)

(** Splits the next [match] or [if] of the hypothesis [H]. *)
Ltac split_match H :=
  match type of H with
  | context [match ?x with _ => _ end] => destruct x eqn:?
  | context [if ?b then _ else _] => destruct b eqn:?
  end.

(** [parse] gives the URL the scheme that [getScheme] found, in lower
    case. *)
Lemma parse_Scheme (rawURL scheme rest : string) (u : Url.URL) :
  Url.getScheme rawURL = inr (scheme, rest) ->
  String.eqb rawURL "*" = false ->
  Url.parse rawURL = inr u ->
  Url.Scheme u = Strings.ToLower scheme.
Proof.
  intros Hscheme Hstar Hparse. unfold Url.parse in Hparse.
  rewrite Hstar, Hscheme in Hparse.
  repeat split_match Hparse; try discriminate;
    injection Hparse as <-; reflexivity.
Qed.

Lemma setFragment_Scheme (url u : Url.URL) (f : string) :
  Url.setFragment url f = inr u -> Url.Scheme u = Url.Scheme url.
Proof.
  unfold Url.setFragment. destruct (Url.unescape f Url.encodeFragment); [discriminate|].
  now intros [= <-].
Qed.

Lemma Cut_http (s : string) :
  Strings.Cut ("http://" +:+ s) "#"
  = let '(before, after, found) := Strings.Cut s "#" in
    ("http://" +:+ before, after, found).
Proof.
  simpl. change ("" +:+ s) with s.
  destruct (Strings.Cut s "#") as [[before after] found]. reflexivity.
Qed.

(** A URL parsed from a string that starts with ["http://"] has the
    scheme ["http"]. *)
Lemma Parse_http_Scheme (s : string) (u : Url.URL) :
  Url.Parse ("http://" +:+ s) = inr u -> Url.Scheme u = "http".
Proof.
  unfold Url.Parse. rewrite Cut_http.
  destruct (Strings.Cut s "#") as [[before after] found].
  destruct (Url.parse ("http://" +:+ before)) as [err|url] eqn:Hparse; [discriminate|].
  assert (Url.Scheme url = "http") as Hurl.
  { apply (parse_Scheme ("http://" +:+ before) "http" ("//" +:+ before));
      [reflexivity | reflexivity | assumption]. }
  destruct (String.eqb after EmptyString).
  - now intros [= <-].
  - destruct (Url.setFragment url after) as [err|url'] eqn:Hfrag; [discriminate|].
    intros [= <-]. now rewrite (setFragment_Scheme _ _ _ Hfrag).
Qed.


(** ** The URL of the ingress *)

Lemma getSparkUIingressURL_parses (unicodeNameRune : string -> nat)
    (ingressURLFormat appName appNamespace : string) :
  getSparkUIingressURL unicodeNameRune ingressURLFormat appName appNamespace
  = Spec.parseWithDefaultScheme
      (templatedURL unicodeNameRune ingressURLFormat appName appNamespace).
Proof.
  unfold getSparkUIingressURL, Spec.parseWithDefaultScheme.
  destruct (Url.Parse (templatedURL _ _ _ _)) as [err|parsed]; [reflexivity|].
  destruct (String.eqb (Url.Scheme parsed) EmptyString); [|reflexivity].
  now destruct (Url.Parse _).
Qed.





(** C8. A URL that [getSparkUIingressURL] returns has a scheme. When the
    templated string parses without a scheme, what is returned is the
    parse of that string behind ["http://"], its scheme is ["http"], and
    parsing the string behind ["http://"] once more as input changes
    nothing; when it parses with a scheme, the first parse is returned.
    The format [{{$appName}}.example.com] with the name [job1] gives the
    host [job1.example.com], the scheme [http] and an empty path, and so
    does the same format behind ["http://"]. *)
Theorem getSparkUIingressURL_scheme (unicodeNameRune : string -> nat)
    (ingressURLFormat appName appNamespace : string) (url : Url.URL) :
  getSparkUIingressURL unicodeNameRune ingressURLFormat appName appNamespace
  = inr url ->
  let templated :=
    templatedURL unicodeNameRune ingressURLFormat appName appNamespace in
  Url.Scheme url <> EmptyString
  /\ (forall first,
        Url.Parse templated = inr first -> Url.Scheme first = EmptyString ->
        Url.Parse ("http://" +:+ templated) = inr url
        /\ Url.Scheme url = "http"
        /\ Spec.parseWithDefaultScheme ("http://" +:+ templated) = inr url)
  /\ (forall first,
        Url.Parse templated = inr first -> Url.Scheme first <> EmptyString ->
        url = first)
  /\ (exists example,
        getSparkUIingressURL unicodeNameRune "{{$appName}}.example.com" "job1" "ns1"
        = inr example
        /\ Url.Host example = "job1.example.com"
        /\ Url.Scheme example = "http"
        /\ Url.Path example = EmptyString
        /\ getSparkUIingressURL unicodeNameRune
             "http://{{$appName}}.example.com" "job1" "ns1" = inr example
        /\ Url.Parse "http://job1.example.com" = inr example).
Proof.
  intros Hurl templated. rewrite getSparkUIingressURL_parses in Hurl.
  fold templated in Hurl. unfold Spec.parseWithDefaultScheme in Hurl.
  destruct (Url.Parse templated) as [err|first] eqn:Hfirst; [discriminate|].
  destruct (String.eqb (Url.Scheme first) EmptyString) eqn:Hscheme.
  - pose proof (Parse_http_Scheme _ _ Hurl) as Hhttp.
    split; [rewrite Hhttp; discriminate|]. split; [|split].
    + intros first' [= <-] _. split; [assumption|]. split; [assumption|].
      unfold Spec.parseWithDefaultScheme. rewrite Hurl, Hhttp. reflexivity.
    + intros first' [= <-] Hne. apply String.eqb_eq in Hscheme. contradiction.
    + exists (Sample.url "job1.example.com" EmptyString).
      repeat split; vm_compute; reflexivity.
  - injection Hurl as <-. apply String.eqb_neq in Hscheme.
    split; [assumption|]. split; [|split].
    + intros first' [= <-] He. contradiction.
    + now intros first' [= <-] _.
    + exists (Sample.url "job1.example.com" EmptyString).
      repeat split; vm_compute; reflexivity.
Qed.

Lemma getSparkUIingressURL_scheme_witness :
  Url.Scheme (Sample.url "job1.example.com" EmptyString) <> EmptyString
  /\ Url.Parse "http://job1.example.com"
     = inr (Sample.url "job1.example.com" EmptyString).
Proof.
  assert (getSparkUIingressURL (fun _ => O) "{{$appName}}.example.com" "job1" "ns1"
          = inr (Sample.url "job1.example.com" EmptyString)) as Hurl
    by (vm_compute; reflexivity).
  destruct (getSparkUIingressURL_scheme (fun _ => O)
              "{{$appName}}.example.com" "job1" "ns1"
              (Sample.url "job1.example.com" EmptyString) Hurl)
    as (Hscheme & Hreparse & _).
  split; [exact Hscheme|].
  refine (proj1 (Hreparse _ _ _)); vm_compute; reflexivity.
Defined.

(** * Further properties of the provisioners *)

Section ProvisionerEffects.

Variable arch : Arch.
Variable getIngressResourceAnnotations :
  v1beta2.SparkApplication -> option (gmap string string).
Variable getIngressTlsHosts :
  v1beta2.SparkApplication -> option (list extensions.IngressTLS).
Variable getDefaultUIIngressName : v1beta2.SparkApplication -> string.
Variable getDefaultUIServiceName : v1beta2.SparkApplication -> string.
Variable getResourceLabels :
  v1beta2.SparkApplication -> option (gmap string string).
Variable getOwnerReference : v1beta2.SparkApplication -> metav1.OwnerReference.
Variable getUIServiceType : v1beta2.SparkApplication -> string.
Variable getServiceAnnotations :
  v1beta2.SparkApplication -> option (gmap string string).
Variables SparkAppNameLabel SparkRoleLabel SparkDriverRole : string.

Local Abbreviation buildIngress' :=
  (buildIngress getIngressResourceAnnotations getIngressTlsHosts
     getDefaultUIIngressName getResourceLabels getOwnerReference).
Local Abbreviation createIngress' :=
  (createSparkUIIngress getIngressResourceAnnotations getIngressTlsHosts
     getDefaultUIIngressName getResourceLabels getOwnerReference).
Local Abbreviation buildService' :=
  (buildService getDefaultUIServiceName getResourceLabels getOwnerReference
     getUIServiceType getServiceAnnotations
     SparkAppNameLabel SparkRoleLabel SparkDriverRole).
Local Abbreviation createService' :=
  (createSparkUIService arch getDefaultUIServiceName getResourceLabels
     getOwnerReference getUIServiceType getServiceAnnotations
     SparkAppNameLabel SparkRoleLabel SparkDriverRole).

(** X2. [createSparkUIService] keeps what was sent before and adds at
    most one request, a service for the namespace of the application;
    when it adds none, its result is an error made by [fmt.Errorf].
    [createSparkUIIngress] keeps what was sent before and adds exactly
    one request, an ingress for the namespace of the application. *)
Theorem provisioners_calls app kubeClient sent service url :
  ((exists message,
      createService' app kubeClient sent = (Err (errorString message), sent))
   \/ (exists submitted,
         snd (createService' app kubeClient sent)
         = (sent ++ [CreateService (v1beta2.Namespace app) submitted])%list))
  /\ (exists submitted,
        snd (createIngress' app service url kubeClient sent)
        = (sent ++ [CreateIngress (v1beta2.Namespace app) submitted])%list).
Proof.
  split.
  - destruct (getUIServicePort arch app) as [port [e|]] eqn:Hport.
    + left. unfold createSparkUIService. rewrite Hport. eexists. reflexivity.
    + destruct (getUITargetPort arch app) as [tPort [e|]] eqn:HtPort.
      * left. unfold createSparkUIService. rewrite Hport, HtPort.
        eexists. reflexivity.
      * right. eexists.
        exact (createSparkUIService_sent arch _ _ _ _ _ _ _ _ _ _ _ _ _ Hport HtPort).
  - eexists. apply createSparkUIIngress_sent.
Qed.

(** X3. An error of the store comes back as it is, after the one request
    was made: from [createSparkUIService] when both ports resolve, and
    from [createSparkUIIngress]. *)
Theorem store_error_returned app kubeClient sent service url port tPort err :
  (getUIServicePort arch app = (port, None) ->
   getUITargetPort arch app = (tPort, None) ->
   Services_Create kubeClient sent (v1beta2.Namespace app)
     (buildService' app (getUIServicePortName app) port tPort) = inl err ->
   createService' app kubeClient sent
   = (Err err,
      (sent ++ [CreateService (v1beta2.Namespace app)
                  (buildService' app (getUIServicePortName app) port tPort)])%list))
  /\ (Ingresses_Create kubeClient sent (v1beta2.Namespace app)
       (buildIngress' app service url) = inl err ->
      createIngress' app service url kubeClient sent
      = (inl err,
         (sent ++ [CreateIngress (v1beta2.Namespace app)
                     (buildIngress' app service url)])%list)).
Proof.
  split.
  - intros Hport HtPort Herr. unfold createSparkUIService.
    now rewrite Hport, HtPort, Herr.
  - intros Herr. unfold createSparkUIIngress. cbn in *. now rewrite Herr.
Qed.

(** X4. When the store accepts the service but its answer has no port
    entry, [createSparkUIService] panics on [service.Spec.Ports[0]]; the
    request has been made by then. *)
Theorem createSparkUIService_panics_without_ports
    app kubeClient sent port tPort answer :
  getUIServicePort arch app = (port, None) ->
  getUITargetPort arch app = (tPort, None) ->
  Services_Create kubeClient sent (v1beta2.Namespace app)
    (buildService' app (getUIServicePortName app) port tPort) = inr answer ->
  apiv1.Ports (apiv1.Spec answer) = nil ->
  exists message,
    createService' app kubeClient sent
    = (Panic message,
       (sent ++ [CreateService (v1beta2.Namespace app)
                   (buildService' app (getUIServicePortName app) port tPort)])%list).
Proof.
  intros Hport HtPort Hanswer Hports. unfold createSparkUIService.
  rewrite Hport, HtPort, Hanswer, Hports. eexists. reflexivity.
Qed.

(** X5. The service that [createSparkUIService] submits has one port
    entry: its name is the port name of the UI options or the default
    name, its port is the service port, its target port is the number of
    the target port. Without UI options the port and the target port are
    the same number. With UI options that set no service port, the port
    is 4040 whatever the conf map holds, while the target port still
    follows the conf map. *)
Theorem submitted_service_ports app kubeClient sent port tPort :
  getUIServicePort arch app = (port, None) ->
  getUITargetPort arch app = (tPort, None) ->
  exists submitted entry,
    snd (createService' app kubeClient sent)
    = (sent ++ [CreateService (v1beta2.Namespace app) submitted])%list
    /\ apiv1.Ports (apiv1.Spec submitted) = [entry]
    /\ apiv1.Name entry = getUIServicePortName app
    /\ apiv1.Port entry = port
    /\ apiv1.TargetPort entry
       = {| intstr.Type_ := intstr.Int; intstr.IntVal := tPort;
            intstr.StrVal := EmptyString |}
    /\ (v1beta2.SparkUIOptions (v1beta2.Spec app) = None ->
        apiv1.Port entry = intstr.IntVal (apiv1.TargetPort entry))
    /\ (forall opts,
        v1beta2.SparkUIOptions (v1beta2.Spec app) = Some opts ->
        apiv1.Port entry = default 4040 (v1beta2.ServicePort opts)).
Proof.
  intros Hport HtPort. eexists _, _. split.
  - exact (createSparkUIService_sent arch _ _ _ _ _ _ _ _ _ _ _ _ _ Hport HtPort).
  - cbn. repeat split.
    + intros Hnone. unfold getUIServicePort in Hport. rewrite Hnone, HtPort in Hport.
      now injection Hport.
    + intros opts Hopts. unfold getUIServicePort in Hport. rewrite Hopts in Hport.
      destruct (v1beta2.ServicePort opts); now injection Hport as <-.
Qed.

(** X6. The two provisioners in a row. When [createSparkUIService]
    succeeds and its descriptor is handed to [createSparkUIIngress], two
    requests have been made, the service and then the ingress; the
    ingress has one rule, for the host of the URL, and one backend, which
    names the service as the store answered it and the port of the first
    port entry of that answer, as a number. *)
Theorem service_then_ingress app kubeClient sent url descriptor sent1 :
  createService' app kubeClient sent = (Ok descriptor, sent1) ->
  exists submitted answer entry ports ingress,
    sent1 = (sent ++ [CreateService (v1beta2.Namespace app) submitted])%list
    /\ Services_Create kubeClient sent (v1beta2.Namespace app) submitted = inr answer
    /\ apiv1.Ports (apiv1.Spec answer) = entry :: ports
    /\ snd (createIngress' app descriptor url kubeClient sent1)
       = (sent ++ [CreateService (v1beta2.Namespace app) submitted;
                   CreateIngress (v1beta2.Namespace app) ingress])%list
    /\ ingressHosts ingress = [Url.Host url]
    /\ ingressBackends ingress
       = [ {| extensions.ServiceName := metav1.Name (apiv1.ObjectMeta answer);
              extensions.ServicePort :=
                {| intstr.Type_ := intstr.Int;
                   intstr.IntVal := apiv1.Port entry;
                   intstr.StrVal := EmptyString |} |} ].
Proof.
  unfold createSparkUIService.
  destruct (getUIServicePort arch app) as [port [e|]]; [discriminate|].
  destruct (getUITargetPort arch app) as [tPort [e|]]; [discriminate|].
  destruct (Services_Create _ _ _ _) as [err|answer] eqn:Hanswer; [discriminate|].
  destruct (apiv1.Ports (apiv1.Spec answer)) as [|entry ports] eqn:Hports;
    [discriminate|].
  intros [= <- <-].
  eexists _, answer, entry, ports, _. split; [reflexivity|].
  split; [exact Hanswer|]. split; [exact Hports|]. split.
  - rewrite createSparkUIIngress_sent, <- app_assoc. reflexivity.
  - split; reflexivity.
Qed.

(** X7. Annotations of the caller are not lost. When the service
    annotations of the caller are not empty and the ports resolve, the
    submitted service carries exactly them. The submitted ingress holds,
    under every key other than the rewrite-target key, what the ingress
    annotations of the caller hold under it, for every URL path. *)
Theorem caller_annotations_kept app kubeClient sent service url port tPort :
  (lenMap (getServiceAnnotations app) <> O ->
   getUIServicePort arch app = (port, None) ->
   getUITargetPort arch app = (tPort, None) ->
   exists submitted,
     snd (createService' app kubeClient sent)
     = (sent ++ [CreateService (v1beta2.Namespace app) submitted])%list
     /\ metav1.Annotations (apiv1.ObjectMeta submitted) = getServiceAnnotations app)
  /\ (exists submitted,
        snd (createIngress' app service url kubeClient sent)
        = (sent ++ [CreateIngress (v1beta2.Namespace app) submitted])%list
        /\ forall key,
             key <> "nginx.ingress.kubernetes.io/rewrite-target" ->
             lookupMap (metav1.Annotations (extensions.ObjectMeta submitted)) key
             = lookupMap (getIngressResourceAnnotations app) key).
Proof.
  split.
  - intros Hlen Hport HtPort. eexists. split.
    + exact (createSparkUIService_sent arch _ _ _ _ _ _ _ _ _ _ _ _ _ Hport HtPort).
    + unfold buildService. cbn. apply Nat.eqb_neq in Hlen. now rewrite Hlen.
  - eexists. split; [apply createSparkUIIngress_sent|].
    intros key Hkey. unfold buildIngress. cbn.
    assert (lookupMap
              (if negb (lenMap (getIngressResourceAnnotations app) =? 0)%nat
               then getIngressResourceAnnotations app else None) key
            = lookupMap (getIngressResourceAnnotations app) key) as Hgiven.
    { destruct (lenMap (getIngressResourceAnnotations app) =? 0)%nat eqn:Hlen;
        [|reflexivity].
      apply Nat.eqb_eq in Hlen. cbn. symmetry. now apply lenMap_zero_lookup. }
    destruct (negb (String.eqb (Url.Path url) EmptyString)
              && negb (String.eqb (Url.Path url) "/")); [|exact Hgiven].
    cbn [lookupMap]. rewrite lookup_insert_ne by (intros Heq; now apply Hkey).
    rewrite <- Hgiven.
    now destruct (if negb (lenMap (getIngressResourceAnnotations app) =? 0)%nat
                  then getIngressResourceAnnotations app else None).
Qed.

(** X8. The TLS list of the submitted ingress is the TLS list of the
    application when that list has an entry, and nil when it has none (a
    nil list or an empty one); on success the descriptor carries the
    same list. *)
Theorem submitted_ingress_tls app kubeClient sent service url :
  exists submitted,
    snd (createIngress' app service url kubeClient sent)
    = (sent ++ [CreateIngress (v1beta2.Namespace app) submitted])%list
    /\ (lenSlice (getIngressTlsHosts app) = O ->
        extensions.TLS (extensions.Spec submitted) = None)
    /\ (lenSlice (getIngressTlsHosts app) <> O ->
        extensions.TLS (extensions.Spec submitted) = getIngressTlsHosts app)
    /\ (forall descriptor,
        fst (createIngress' app service url kubeClient sent) = inr descriptor ->
        ingressTLS descriptor = extensions.TLS (extensions.Spec submitted)
        /\ ingressURL descriptor = url).
Proof.
  eexists. split; [apply createSparkUIIngress_sent|].
  unfold createSparkUIIngress, buildIngress. cbn.
  split; [|split].
  - intros ->. reflexivity.
  - intros Hlen. apply Nat.eqb_neq in Hlen. now rewrite Hlen.
  - intros descriptor. destruct (Ingresses_Create _ _ _ _); [discriminate|].
    now intros [= <-].
Qed.

End ProvisionerEffects.

(** *** On the sample application *)

Lemma store_error_returned_witness :
  createSparkUIService Arch64 Sample.serviceName (fun _ => None) Sample.owner
    (fun _ => "ClusterIP") (fun _ => None)
    "sparkoperator.k8s.io/app-name" "spark-role" "driver"
    (Sample.app ∅ None) Stores.rejecting []
  = (Err (StatusError "AlreadyExists" "services already exists"),
     [CreateService "ns1"
        (buildService Sample.serviceName (fun _ => None) Sample.owner
           (fun _ => "ClusterIP") (fun _ => None)
           "sparkoperator.k8s.io/app-name" "spark-role" "driver"
           (Sample.app ∅ None) "spark-driver-ui-port" 4040 4040)])
  /\ fst (createSparkUIIngress (fun _ => None) (fun _ => None) Sample.ingressName
            (fun _ => None) Sample.owner (Sample.app ∅ None) Sample.service
            (Sample.url "job1.example.com" "/") Stores.rejecting [])
     = inl (StatusError "Forbidden" "ingresses is forbidden").
Proof.
  destruct (store_error_returned Arch64 (fun _ => None) (fun _ => None)
              Sample.ingressName Sample.serviceName (fun _ => None) Sample.owner
              (fun _ => "ClusterIP") (fun _ => None)
              "sparkoperator.k8s.io/app-name" "spark-role" "driver"
              (Sample.app ∅ None) Stores.rejecting [] Sample.service
              (Sample.url "job1.example.com" "/") 4040 4040
              (StatusError "AlreadyExists" "services already exists"))
    as [Hservice _].
  destruct (store_error_returned Arch64 (fun _ => None) (fun _ => None)
              Sample.ingressName Sample.serviceName (fun _ => None) Sample.owner
              (fun _ => "ClusterIP") (fun _ => None)
              "sparkoperator.k8s.io/app-name" "spark-role" "driver"
              (Sample.app ∅ None) Stores.rejecting [] Sample.service
              (Sample.url "job1.example.com" "/") 4040 4040
              (StatusError "Forbidden" "ingresses is forbidden"))
    as [_ Hingress].
  split.
  - apply Hservice; vm_compute; reflexivity.
  - rewrite Hingress by (vm_compute; reflexivity). reflexivity.
Defined.

Lemma createSparkUIService_panics_without_ports_witness :
  exists message,
    fst (createSparkUIService Arch64 Sample.serviceName (fun _ => None) Sample.owner
           (fun _ => "ClusterIP") (fun _ => None)
           "sparkoperator.k8s.io/app-name" "spark-role" "driver"
           (Sample.app ∅ None) Stores.portless [])
    = Panic message.
Proof.
  edestruct (createSparkUIService_panics_without_ports Arch64 Sample.serviceName
               (fun _ => None) Sample.owner (fun _ => "ClusterIP") (fun _ => None)
               "sparkoperator.k8s.io/app-name" "spark-role" "driver"
               (Sample.app ∅ None) Stores.portless [] 4040 4040)
    as [message Hpanic];
    [vm_compute; reflexivity | vm_compute; reflexivity
    | vm_compute; reflexivity | vm_compute; reflexivity |].
  exists message. now rewrite Hpanic.
Defined.

Lemma submitted_service_ports_witness :
  exists submitted entry,
    snd (createSparkUIService Arch64 Sample.serviceName (fun _ => None) Sample.owner
           (fun _ => "ClusterIP") (fun _ => None)
           "sparkoperator.k8s.io/app-name" "spark-role" "driver"
           (Sample.app {[ "spark.ui.port" := "4041" ]}
              (Some {| v1beta2.ServicePort := None;
                       v1beta2.ServicePortName := Some "ui" |}))
           Sample.store [])
    = [CreateService "ns1" submitted]
    /\ apiv1.Ports (apiv1.Spec submitted) = [entry]
    /\ apiv1.Name entry = "ui"
    /\ apiv1.Port entry = 4040
    /\ intstr.IntVal (apiv1.TargetPort entry) = 4041.
Proof.
  destruct (submitted_service_ports Arch64 Sample.serviceName (fun _ => None)
              Sample.owner (fun _ => "ClusterIP") (fun _ => None)
              "sparkoperator.k8s.io/app-name" "spark-role" "driver"
              (Sample.app {[ "spark.ui.port" := "4041" ]}
                 (Some {| v1beta2.ServicePort := None;
                          v1beta2.ServicePortName := Some "ui" |}))
              Sample.store [] 4040 4041
              ltac:(vm_compute; reflexivity) ltac:(vm_compute; reflexivity))
    as (submitted & entry & Hsent & Hports & Hname & Hport & Htarget & _).
  exists submitted, entry. rewrite Htarget.
  repeat split; assumption || reflexivity.
Defined.

Lemma service_then_ingress_witness :
  exists submitted answer entry ports ingress,
    Services_Create Sample.store [] "ns1" submitted = inr answer
    /\ apiv1.Ports (apiv1.Spec answer) = entry :: ports
    /\ snd (createSparkUIIngress (fun _ => None) (fun _ => None) Sample.ingressName
              (fun _ => None) Sample.owner (Sample.app ∅ None) Sample.service
              (Sample.url "job1.example.com" "/") Sample.store
              [CreateService "ns1" submitted])
       = [CreateService "ns1" submitted; CreateIngress "ns1" ingress]
    /\ ingressHosts ingress = ["job1.example.com"]
    /\ ingressBackends ingress
       = [ {| extensions.ServiceName := metav1.Name (apiv1.ObjectMeta answer);
              extensions.ServicePort :=
                {| intstr.Type_ := intstr.Int;
                   intstr.IntVal := apiv1.Port entry;
                   intstr.StrVal := EmptyString |} |} ].
Proof.
  assert (createSparkUIService Arch64 Sample.serviceName (fun _ => None) Sample.owner
            (fun _ => "ClusterIP") (fun _ => None)
            "sparkoperator.k8s.io/app-name" "spark-role" "driver"
            (Sample.app ∅ None) Sample.store []
          = (Ok Sample.service,
             [CreateService "ns1"
                (buildService Sample.serviceName (fun _ => None) Sample.owner
                   (fun _ => "ClusterIP") (fun _ => None)
                   "sparkoperator.k8s.io/app-name" "spark-role" "driver"
                   (Sample.app ∅ None) "spark-driver-ui-port" 4040 4040)]))
    as Hcreated by (vm_compute; reflexivity).
  destruct (service_then_ingress Arch64 (fun _ => None) (fun _ => None)
              Sample.ingressName Sample.serviceName (fun _ => None) Sample.owner
              (fun _ => "ClusterIP") (fun _ => None)
              "sparkoperator.k8s.io/app-name" "spark-role" "driver"
              (Sample.app ∅ None) Sample.store []
              (Sample.url "job1.example.com" "/") _ _ Hcreated)
    as (submitted & answer & entry & ports & ingress
        & Hsent & Hanswer & Hports & Hcalls & Hhosts & Hbackends).
  injection Hsent as Hsubmitted. rewrite Hsubmitted in Hcalls.
  exists submitted, answer, entry, ports, ingress.
  repeat split; assumption.
Defined.

Lemma caller_annotations_kept_witness :
  (exists submitted,
     snd (createSparkUIService Arch64 Sample.serviceName (fun _ => None) Sample.owner
            (fun _ => "ClusterIP") (fun _ => Some {[ "team" := "data" ]})
            "sparkoperator.k8s.io/app-name" "spark-role" "driver"
            (Sample.app ∅ None) Sample.store [])
     = [CreateService "ns1" submitted]
     /\ metav1.Annotations (apiv1.ObjectMeta submitted) = Some {[ "team" := "data" ]})
  /\ (exists submitted,
        snd (createSparkUIIngress (fun _ => Some {[ "team" := "data" ]})
               (fun _ => None) Sample.ingressName (fun _ => None) Sample.owner
               (Sample.app ∅ None) Sample.service
               (Sample.url "job1.example.com" "/ui") Sample.store [])
        = [CreateIngress "ns1" submitted]
        /\ lookupMap (metav1.Annotations (extensions.ObjectMeta submitted)) "team"
           = Some "data").
Proof.
  destruct (caller_annotations_kept Arch64
              (fun _ => Some {[ "team" := "data" ]}) (fun _ => None)
              Sample.ingressName Sample.serviceName (fun _ => None) Sample.owner
              (fun _ => "ClusterIP") (fun _ => Some {[ "team" := "data" ]})
              "sparkoperator.k8s.io/app-name" "spark-role" "driver"
              (Sample.app ∅ None) Sample.store [] Sample.service
              (Sample.url "job1.example.com" "/ui") 4040 4040)
    as [Hservice (submitted & Hsent & Hkept)].
  split.
  - apply Hservice; [vm_compute; discriminate | vm_compute; reflexivity
                    | vm_compute; reflexivity].
  - exists submitted. split; [exact Hsent|].
    rewrite Hkept by discriminate. vm_compute. reflexivity.
Defined.

Lemma submitted_ingress_tls_witness :
  exists submitted,
    snd (createSparkUIIngress (fun _ => None)
           (fun _ => Some [ {| extensions.Hosts := ["job1.example.com"];
                               extensions.SecretName := "job1-tls" |} ])
           Sample.ingressName (fun _ => None) Sample.owner
           (Sample.app ∅ None) Sample.service
           (Sample.url "job1.example.com" "/") Sample.store [])
    = [CreateIngress "ns1" submitted]
    /\ extensions.TLS (extensions.Spec submitted)
       = Some [ {| extensions.Hosts := ["job1.example.com"];
                   extensions.SecretName := "job1-tls" |} ].
Proof.
  destruct (submitted_ingress_tls (fun _ => None)
              (fun _ => Some [ {| extensions.Hosts := ["job1.example.com"];
                                  extensions.SecretName := "job1-tls" |} ])
              Sample.ingressName (fun _ => None) Sample.owner
              (Sample.app ∅ None) Sample.store [] Sample.service
              (Sample.url "job1.example.com" "/"))
    as (submitted & Hsent & _ & Htls & _).
  exists submitted. split; [exact Hsent|]. apply Htls. discriminate.
Defined.

(** * The whole range of [strconv.Atoi] *)

Section AtoiRange.

Lemma uint64_wrapped (z : Z) : 2 ^ 64 <= z < 2 * 2 ^ 64 -> uint64 z = z - 2 ^ 64.
Proof.
  intros Hz. unfold uint64, wrap_unsigned.
  symmetry. apply (Z.mod_unique _ _ 1); lia.
Qed.

(** The loop of [ParseUint] on a run of digits whose value does not fit:
    the range error, with the largest value. *)
Lemma parseUintLoop_overflow (maxVal : Z) (s : string) (n : Z) :
  Spec.allDigits s = true -> 0 <= n <= maxVal -> maxVal < 2 ^ 64 ->
  maxVal < Spec.digitsValue n s ->
  Strconv.parseUintLoop maxVal n s = (maxVal, Some ErrRange).
Proof.
  revert n. induction s as [|c s IH]; intros n Hs Hn Hmax Hover.
  - cbn in Hover. lia.
  - cbn in Hs. apply andb_true_iff in Hs as [Hc Hs].
    cbn [Strconv.parseUintLoop Spec.digitsValue] in *. rewrite Hc.
    pose proof (proj1 (between_digit c) Hc) as Hd. rewrite byte_val_zero in *.
    change (Strconv.maxUint64 / 10 + 1) with 1844674407370955162.
    rewrite (geb_false _ 10) by lia.
    destruct (n >=? 1844674407370955162) eqn:Hcut; [reflexivity|].
    rewrite Z.geb_leb in Hcut. apply Z.leb_gt in Hcut.
    rewrite (uint64_small (n * 10)) by lia.
    destruct (Z_lt_le_dec (n * 10 + (byte_val c - 48)) (2 ^ 64)) as [Hfit|Hwrap].
    + rewrite (uint64_small (n * 10 + (byte_val c - 48))) by lia.
      destruct (n * 10 + (byte_val c - 48) >? maxVal) eqn:Hbig.
      * now rewrite orb_true_r.
      * rewrite Z.gtb_ltb in Hbig. apply Z.ltb_ge in Hbig.
        replace (n * 10 + (byte_val c - 48) <? n * 10) with false
          by (symmetry; apply Z.ltb_ge; lia).
        cbn [orb]. apply IH; [assumption | lia | assumption | assumption].
    + rewrite (uint64_wrapped (n * 10 + (byte_val c - 48))) by lia.
      replace (n * 10 + (byte_val c - 48) - 2 ^ 64 <? n * 10) with true
        by (symmetry; apply Z.ltb_lt; lia).
      reflexivity.
Qed.

Lemma ParseUint_digits_any (arch : Arch) (s : string) :
  Spec.isDigits s = true ->
  let maxVal := 2 ^ IntSize arch - 1 in
  (Spec.digitsValue 0 s <= maxVal ->
   Strconv.ParseUint arch s = (Spec.digitsValue 0 s, None))
  /\ (maxVal < Spec.digitsValue 0 s ->
      Strconv.ParseUint arch s = (maxVal, Some ErrRange)).
Proof.
  intros Hs maxVal. apply isDigits_inv in Hs as [Hne Hs].
  assert (0 <= maxVal < 2 ^ 64) by (subst maxVal; destruct arch; cbn [IntSize]; lia).
  unfold Strconv.ParseUint. destruct s as [|c s]; [congruence|]. split; intros Hv.
  - apply parseUintLoop_digits; [assumption | lia | assumption | lia].
  - apply parseUintLoop_overflow; [assumption | lia | lia | assumption].
Qed.

Lemma int64_negated (mag : Z) :
  0 <= mag <= 2 ^ 63 -> int64 (- int64 mag) = - mag.
Proof.
  intros Hmag. destruct (Z.eq_dec mag (2 ^ 63)) as [->|Hne]; [reflexivity|].
  rewrite (int64_small mag) by lia. apply int64_small. lia.
Qed.

(** The sign of a base-10 integer and the digits after it. *)
Lemma isDecimal_sign (c : ascii) (s : string) :
  Spec.isDecimal (String c s) = true ->
  exists digits,
    Spec.isDigits digits = true
    /\ (if Ascii.eqb c "+" || Ascii.eqb c "-" then s else String c s) = digits
    /\ Spec.decimalValue (String c s)
       = if Ascii.eqb c "-" then - Spec.digitsValue 0 digits
         else Spec.digitsValue 0 digits.
Proof.
  unfold Spec.isDecimal, Spec.decimalValue.
  destruct (Ascii.eqb c "-"), (Ascii.eqb c "+"); cbn [orb];
    intros Hs; eexists; repeat split; assumption.
Qed.

(** [ParseInt] on every base-10 integer. *)
Lemma ParseInt_decimal_any (arch : Arch) (s : string) :
  Spec.isDecimal s = true ->
  let limit := 2 ^ (IntSize arch - 1) in
  (- limit <= Spec.decimalValue s < limit ->
   Strconv.ParseInt arch s = (Spec.decimalValue s, None))
  /\ (limit <= Spec.decimalValue s ->
      Strconv.ParseInt arch s = (limit - 1, Some ErrRange))
  /\ (Spec.decimalValue s < - limit ->
      Strconv.ParseInt arch s = (- limit, Some ErrRange)).
Proof.
  destruct s as [|c s]; [discriminate|].
  intros Hs limit.
  destruct (isDecimal_sign c s Hs) as (digits & Hdigits & Hrest & ->).
  unfold Strconv.ParseInt. cbv zeta. rewrite Hrest. clear Hrest Hs.
  set (mag := Spec.digitsValue 0 digits).
  assert (0 <= mag) as Hmag
    by (apply digitsValue_ge; [apply (isDigits_inv _ Hdigits) | lia]).
  destruct (ParseUint_digits_any arch digits Hdigits) as [Hfit Hover].
  fold mag in Hfit, Hover.
  assert (exists maxVal, maxVal = 2 ^ IntSize arch - 1) as [maxVal HmaxVal]
    by (eexists; reflexivity).
  rewrite <- HmaxVal in Hfit, Hover.
  destruct (Z_le_gt_dec mag maxVal) as [Hle|Hgt];
    [rewrite (Hfit Hle) | rewrite (Hover ltac:(lia))]; clear Hfit Hover;
    destruct arch; cbn [IntSize] in *; subst limit maxVal;
    destruct (Ascii.eqb c "-"); cbn [negb andb];
    rewrite ?Z.gtb_ltb, ?Z.geb_leb;
    repeat match goal with
           | |- context [?a <? ?b] => destruct (Z.ltb_spec a b)
           | |- context [?a <=? ?b] => destruct (Z.leb_spec a b)
           end;
    repeat split; intros Hv; try lia; try reflexivity;
    f_equal; try (apply int64_negated; lia); try (apply int64_small; lia).
Qed.

(** In the fast path of [Atoi] the digits are too few to overflow. *)
Lemma fast_digits_bound (arch : Arch) (total : Z) (digits : string) :
  ((IntSize arch =? 32) && ((0 <? total) && (total <? 10))
   || (IntSize arch =? 64) && ((0 <? total) && (total <? 19))) = true ->
  len digits <= total -> Spec.allDigits digits = true ->
  Spec.digitsValue 0 digits < 2 ^ (IntSize arch - 1).
Proof.
  intros Hfast Hlen Hdigits.
  pose proof (digitsValue_lt_pow digits 0 Hdigits ltac:(lia)) as Hpow.
  pose proof (len_nonneg digits) as Hnonneg.
  destruct arch; cbn [IntSize] in *.
  - change (32 =? 32) with true in Hfast. change (32 =? 64) with false in Hfast.
    cbn [andb] in Hfast. rewrite orb_false_r in Hfast.
    apply andb_true_iff in Hfast as [_ Hfast]. apply Z.ltb_lt in Hfast.
    assert (10 ^ len digits <= 10 ^ 9) by (apply Z.pow_le_mono_r; lia). lia.
  - change (64 =? 32) with false in Hfast. change (64 =? 64) with true in Hfast.
    cbn [andb orb] in Hfast.
    apply andb_true_iff in Hfast as [_ Hfast]. apply Z.ltb_lt in Hfast.
    assert (10 ^ len digits <= 10 ^ 18) by (apply Z.pow_le_mono_r; lia). lia.
Qed.

(** [Atoi] on every base-10 integer: the integer when it fits the int of
    the platform, and otherwise the range error with the nearest int. *)
Lemma Atoi_decimal_any (arch : Arch) (s : string) :
  Spec.isDecimal s = true ->
  let limit := 2 ^ (IntSize arch - 1) in
  (- limit <= Spec.decimalValue s < limit ->
   Strconv.Atoi arch s = (Spec.decimalValue s, None))
  /\ (limit <= Spec.decimalValue s ->
      Strconv.Atoi arch s = (limit - 1, Some (NumError "Atoi" s ErrRange)))
  /\ (Spec.decimalValue s < - limit ->
      Strconv.Atoi arch s = (- limit, Some (NumError "Atoi" s ErrRange))).
Proof.
  intros Hs limit. unfold Strconv.Atoi.
  destruct (_ || _) eqn:Hfast.
  - destruct s as [|c s]; [discriminate|].
    destruct (isDecimal_sign c s Hs) as (digits & Hdigits & Hrest & Hvalue).
    rewrite Hvalue. rewrite isSign_spec, orb_comm, Hrest.
    apply isDigits_inv in Hdigits as [Hne Hdigits].
    assert (len digits <= len (String c s)) as Hlen.
    { rewrite <- Hrest, len_String.
      destruct (Ascii.eqb c "+" || Ascii.eqb c "-"); [lia|].
      rewrite len_String. lia. }
    pose proof (fast_digits_bound arch _ digits Hfast Hlen Hdigits) as Hbound.
    pose proof (digitsValue_ge digits 0 Hdigits ltac:(lia)) as Hmag.
    replace (len digits <? 1) with false
      by (symmetry; apply Z.ltb_ge; destruct digits; [congruence|];
          rewrite len_String; pose proof (len_nonneg digits); lia).
    rewrite andb_false_r, atoiLoop_digits by (assumption || lia).
    fold limit in Hbound.
    destruct (Ascii.eqb c "-").
    + rewrite int_small by (fold limit; lia).
      repeat split; intros Hv; try lia; reflexivity.
    + repeat split; intros Hv; try lia; reflexivity.
  - destruct (ParseInt_decimal_any arch s Hs) as (Hfit & Hhigh & Hlow).
    fold limit in Hfit, Hhigh, Hlow.
    repeat split; intros Hv;
      [rewrite (Hfit Hv) | rewrite (Hhigh Hv) | rewrite (Hlow Hv)];
      rewrite int_small by (subst limit; destruct arch; cbn [IntSize] in *; lia);
      reflexivity.
Qed.

End AtoiRange.

(** X9. The target port over the whole range of base-10 integers. When the
    conf map holds a base-10 integer that fits the int of the platform,
    [getUITargetPort] returns it cut to its low 32 bits, with no error:
    on a 64-bit platform the value 4294971336 gives the port 4040. When
    the integer does not fit, [getUITargetPort] returns the range error
    of [strconv.Atoi] and the nearest int cut to 32 bits: on a 64-bit
    platform, -1 above the range and 0 below it. *)
Theorem getUITargetPort_decimal_range (arch : Arch)
    (app : v1beta2.SparkApplication) (v : string) :
  v1beta2.SparkConf (v1beta2.Spec app) !! "spark.ui.port" = Some v ->
  Spec.isDecimal v = true ->
  let limit := 2 ^ (IntSize arch - 1) in
  (- limit <= Spec.decimalValue v < limit ->
   getUITargetPort arch app = (int32 (Spec.decimalValue v), None))
  /\ (limit <= Spec.decimalValue v ->
      getUITargetPort arch app
      = (int32 (limit - 1), Some (NumError "Atoi" v ErrRange)))
  /\ (Spec.decimalValue v < - limit ->
      getUITargetPort arch app
      = (int32 (- limit), Some (NumError "Atoi" v ErrRange)))
  /\ (arch = Arch64 -> int32 (limit - 1) = -1 /\ int32 (- limit) = 0).
Proof.
  intros Hconf Hv limit. unfold getUITargetPort, sparkUIPortConfigurationKey.
  rewrite Hconf.
  destruct (Atoi_decimal_any arch v Hv) as (Hfit & Hhigh & Hlow).
  fold limit in Hfit, Hhigh, Hlow.
  split; [|split; [|split]].
  - intros Hrange. now rewrite (Hfit Hrange).
  - intros Hrange. now rewrite (Hhigh Hrange).
  - intros Hrange. now rewrite (Hlow Hrange).
  - subst limit. intros ->. split; reflexivity.
Qed.

Lemma getUITargetPort_decimal_range_witness :
  getUITargetPort Arch64 (Sample.app {[ "spark.ui.port" := "4294971336" ]} None)
  = (4040, None)
  /\ getUITargetPort Arch64
       (Sample.app {[ "spark.ui.port" := "9223372036854775808" ]} None)
     = (-1, Some (NumError "Atoi" "9223372036854775808" ErrRange))
  /\ getUITargetPort Arch32
       (Sample.app {[ "spark.ui.port" := "-2147483649" ]} None)
     = (-2147483648, Some (NumError "Atoi" "-2147483649" ErrRange)).
Proof.
  split; [|split].
  - refine (proj1 (getUITargetPort_decimal_range Arch64
                     (Sample.app {[ "spark.ui.port" := "4294971336" ]} None)
                     "4294971336" _ _) _);
      [vm_compute; reflexivity | reflexivity
      | split; [vm_compute; discriminate | vm_compute; reflexivity]].
  - refine (proj1 (proj2 (getUITargetPort_decimal_range Arch64
                     (Sample.app {[ "spark.ui.port" := "9223372036854775808" ]} None)
                     "9223372036854775808" _ _)) _);
      [vm_compute; reflexivity | reflexivity | vm_compute; discriminate].
  - refine (proj1 (proj2 (proj2 (getUITargetPort_decimal_range Arch32
                     (Sample.app {[ "spark.ui.port" := "-2147483649" ]} None)
                     "-2147483649" _ _))) _);
      [vm_compute; reflexivity | reflexivity | vm_compute; reflexivity].
Defined.

(** * net/url on plain hosts and paths *)

Section PlainBytes.

Lemma pathByte_facts (c : ascii) :
  Shape.pathByte c = true ->
  Url.shouldEscape c Url.encodePath = false
  /\ ((byte_val c <? 32) || (byte_val c =? 127)) = false
  /\ Ascii.eqb c "%" = false /\ Ascii.eqb c "+" = false
  /\ Ascii.eqb c "#" = false /\ Ascii.eqb c "?" = false
  /\ Ascii.eqb c ":" = false /\ Ascii.eqb c "@" = false.
Proof.
  destruct c as [[] [] [] [] [] [] [] []]; vm_compute; intros H;
    first [discriminate H | repeat split].
Qed.

Lemma hostByte_facts (c : ascii) :
  Shape.hostByte c = true ->
  Shape.pathByte c = true
  /\ Shape.schemeByte c = true
  /\ Url.shouldEscape c Url.encodeHost = false
  /\ Ascii.eqb c "/" = false /\ Ascii.eqb c "[" = false.
Proof.
  destruct c as [[] [] [] [] [] [] [] []]; vm_compute; intros H;
    first [discriminate H | repeat split].
Qed.

Lemma schemeByte_facts (c : ascii) :
  Shape.schemeByte c = true ->
  (Shape.isLetter c || (between "0" c "9" || Url.oneOf c "+-.")) = true
  /\ Strings.lowerByte c <> "*"%char
  /\ ((byte_val c <? 32) || (byte_val c =? 127)) = false
  /\ Ascii.eqb c "#" = false.
Proof.
  destruct c as [[] [] [] [] [] [] [] []]; vm_compute; intros H;
    first [discriminate H | repeat split; discriminate].
Qed.

Lemma unescapeCheck_step (mode : Url.encoding) (c : ascii) (rest : string) :
  Ascii.eqb c "%" = false ->
  Url.unescapeCheck mode (String c rest)
  = if (Url.encoding_eqb mode Url.encodeHost || Url.encoding_eqb mode Url.encodeZone)
       && (byte_val c <? 128) && Url.shouldEscape c Url.encodeHost
       && negb (Ascii.eqb c "+")
    then Some (InvalidHostError (String c EmptyString))
    else Url.unescapeCheck mode rest.
Proof.
  destruct c as [[] [] [] [] [] [] [] []]; intros H;
    first [discriminate H | reflexivity].
Qed.

Lemma unescapeBytes_step (mode : Url.encoding) (c : ascii) (rest : string) :
  Ascii.eqb c "%" = false -> Ascii.eqb c "+" = false ->
  Url.unescapeBytes mode (String c rest) = String c (Url.unescapeBytes mode rest).
Proof.
  destruct c as [[] [] [] [] [] [] [] []]; intros H1 H2;
    first [discriminate H1 | discriminate H2 | reflexivity].
Qed.

Lemma all_append (p : ascii -> bool) (a b : string) :
  Shape.all p (a +:+ b) = Shape.all p a && Shape.all p b.
Proof.
  induction a as [|c a IH]; simpl; [reflexivity|]. now rewrite IH, andb_assoc.
Qed.

Lemma all_impl (p q : ascii -> bool) (s : string) :
  (forall c, p c = true -> q c = true) ->
  Shape.all p s = true -> Shape.all q s = true.
Proof.
  intros Hpq. induction s as [|c s IH]; [reflexivity|]. cbn.
  intros H. apply andb_true_iff in H as [Hc Hs]. now rewrite (Hpq c Hc), IH.
Qed.

Lemma all_not_contains (p : ascii -> bool) (s : string) (x : ascii) :
  (forall c, p c = true -> Ascii.eqb c x = false) ->
  Shape.all p s = true -> Strings.ContainsByte s x = false.
Proof.
  intros Hp. induction s as [|c s IH]; [reflexivity|]. cbn.
  intros H. apply andb_true_iff in H as [Hc Hs]. now rewrite (Hp c Hc), IH.
Qed.

Lemma hostByte_pathByte (c : ascii) : Shape.hostByte c = true -> Shape.pathByte c = true.
Proof. intros H. apply (hostByte_facts c H). Qed.

(** Path bytes need no escaping and hold no escape: [unescape] and
    [escape] give them back. *)
Lemma unescape_path (s : string) :
  Shape.all Shape.pathByte s = true -> Url.unescape s Url.encodePath = inr s.
Proof.
  intros Hs. unfold Url.unescape.
  assert (Url.unescapeCheck Url.encodePath s = None
          /\ Url.unescapeBytes Url.encodePath s = s) as [-> ->]; [|reflexivity].
  induction s as [|c s IH]; [now split|].
  cbn in Hs. apply andb_true_iff in Hs as [Hc Hs].
  destruct (pathByte_facts c Hc) as (_ & _ & Hpercent & Hplus & _).
  destruct (IH Hs) as [IHcheck IHbytes].
  rewrite unescapeCheck_step, unescapeBytes_step by assumption.
  cbn [Url.encoding_eqb orb andb]. now rewrite IHcheck, IHbytes.
Qed.

Lemma escape_path (s : string) :
  Shape.all Shape.pathByte s = true -> Url.escape s Url.encodePath = s.
Proof.
  induction s as [|c s IH]; [reflexivity|]. cbn [Shape.all Url.escape].
  intros Hs. apply andb_true_iff in Hs as [Hc Hs].
  destruct (pathByte_facts c Hc) as (-> & _). now rewrite IH.
Qed.

Lemma unescape_host (s : string) :
  Shape.all Shape.hostByte s = true -> Url.unescape s Url.encodeHost = inr s.
Proof.
  intros Hs. unfold Url.unescape.
  assert (Url.unescapeCheck Url.encodeHost s = None
          /\ Url.unescapeBytes Url.encodeHost s = s) as [-> ->]; [|reflexivity].
  induction s as [|c s IH]; [now split|].
  cbn in Hs. apply andb_true_iff in Hs as [Hc Hs].
  destruct (hostByte_facts c Hc) as (Hpath & _ & Hescape & _).
  destruct (pathByte_facts c Hpath) as (_ & _ & Hpercent & Hplus & _).
  destruct (IH Hs) as [IHcheck IHbytes].
  rewrite unescapeCheck_step, unescapeBytes_step by assumption.
  rewrite Hescape, andb_false_r. cbn [andb]. now rewrite IHcheck, IHbytes.
Qed.

Lemma stringContainsCTLByte_plain (s : string) :
  Shape.all Shape.pathByte s = true -> Url.stringContainsCTLByte s = false.
Proof.
  induction s as [|c s IH]; [reflexivity|]. cbn [Shape.all Url.stringContainsCTLByte].
  intros Hs. apply andb_true_iff in Hs as [Hc Hs].
  destruct (pathByte_facts c Hc) as (_ & Hctl & _).
  rewrite Hctl. now apply IH.
Qed.

Lemma CutLast_absent (s : string) (x : ascii) :
  Strings.ContainsByte s x = false -> Strings.CutLast s x = None.
Proof.
  induction s as [|c s IH]; [reflexivity|]. cbn.
  intros H. apply orb_false_iff in H as [-> H]. now rewrite (IH H).
Qed.

Lemma HasSuffixByte_absent (s : string) (x : ascii) :
  Strings.ContainsByte s x = false -> Strings.HasSuffixByte s x = false.
Proof.
  induction s as [|c s IH]; [reflexivity|]. cbn.
  intros H. apply orb_false_iff in H as [Hc H].
  destruct s; [assumption | now apply IH].
Qed.

Lemma append_cons (c : ascii) (a b : string) :
  String c a +:+ b = String c (a +:+ b).
Proof. reflexivity. Qed.

Lemma ContainsByte_append (a b : string) (x : ascii) :
  Strings.ContainsByte (a +:+ b) x
  = Strings.ContainsByte a x || Strings.ContainsByte b x.
Proof.
  induction a as [|c a IH]; simpl; [reflexivity|]. now rewrite IH, orb_assoc.
Qed.

Lemma stringContainsCTLByte_append (a b : string) :
  Url.stringContainsCTLByte (a +:+ b)
  = Url.stringContainsCTLByte a || Url.stringContainsCTLByte b.
Proof.
  induction a as [|c a IH]; simpl; [reflexivity|]. now rewrite IH, !orb_assoc.
Qed.

Lemma take_append (a b : string) : Strings.take (String.length a) (a +:+ b) = a.
Proof. induction a as [|c a IH]; simpl; [now destruct b | now rewrite IH]. Qed.

Lemma isPath_all (path : string) :
  Shape.isPath path = true -> Shape.all Shape.pathByte path = true.
Proof.
  destruct path as [|c path]; [reflexivity|]. cbn.
  intros H. apply andb_true_iff in H as [Hc Hpath].
  apply Ascii.eqb_eq in Hc. now subst c.
Qed.

Lemma isScheme_inv (scheme : string) :
  Shape.isScheme scheme = true ->
  exists c rest, scheme = String c rest /\ Shape.isLetter c = true
                 /\ Shape.all Shape.schemeByte rest = true.
Proof.
  destruct scheme as [|c rest]; [discriminate|]. cbn.
  intros H. apply andb_true_iff in H as [Hc Hrest]. now exists c, rest.
Qed.

Lemma isLetter_facts (c : ascii) :
  Shape.isLetter c = true ->
  Shape.schemeByte c = true /\ Ascii.eqb c "*" = false.
Proof.
  destruct c as [[] [] [] [] [] [] [] []]; vm_compute; intros H;
    first [discriminate H | repeat split].
Qed.

Lemma hostByte_not_star (c : ascii) :
  Shape.hostByte c = true -> Ascii.eqb c "*" = false /\ Ascii.eqb "/" c = false
                             /\ Ascii.eqb "[" c = false.
Proof.
  destruct c as [[] [] [] [] [] [] [] []]; vm_compute; intros H;
    first [discriminate H | repeat split].
Qed.

(** [getScheme] past a scheme: the loop from the second byte on. *)
Lemma getSchemeLoop_scheme (i : nat) (rawURL s rest : string) :
  (0 < i)%nat -> Shape.all Shape.schemeByte s = true ->
  Url.getSchemeLoop i rawURL (s +:+ String ":" rest)
  = inr (Strings.take (i + String.length s) rawURL, rest).
Proof.
  revert i. induction s as [|c s IH]; intros i Hi Hs.
  - simpl. destruct i; [lia|]. now rewrite Nat.add_0_r.
  - cbn in Hs. apply andb_true_iff in Hs as [Hc Hs].
    destruct (schemeByte_facts c Hc) as (Hclass & _).
    rewrite append_cons. cbn [Url.getSchemeLoop]. unfold Shape.isLetter in Hclass.
    destruct (between "a" c "z" || between "A" c "Z").
    + rewrite IH by (lia || assumption).
      now replace (S i + String.length s)%nat
        with (i + String.length (String c s))%nat by (simpl; lia).
    + cbn [orb] in Hclass. rewrite Hclass.
      destruct i as [|i]; [lia|]. cbn [Nat.eqb].
      rewrite IH by (lia || assumption).
      now replace (S (S i) + String.length s)%nat
        with (S i + String.length (String c s))%nat by (simpl; lia).
Qed.

Lemma getScheme_scheme (scheme rest : string) :
  Shape.isScheme scheme = true ->
  Url.getScheme (scheme +:+ String ":" rest) = inr (scheme, rest).
Proof.
  intros Hscheme. destruct (isScheme_inv _ Hscheme) as (c & s & -> & Hc & Hs).
  unfold Url.getScheme. rewrite append_cons. cbn [Url.getSchemeLoop].
  unfold Shape.isLetter in Hc. rewrite Hc.
  rewrite getSchemeLoop_scheme by (lia || assumption).
  change (String c (s +:+ String ":" rest)) with (String c s +:+ String ":" rest).
  change (1 + String.length s)%nat with (String.length (String c s)).
  now rewrite take_append.
Qed.

(** [getScheme] on a host and a path: no scheme. *)
Lemma getSchemeLoop_host (i : nat) (rawURL host path : string) :
  Shape.all Shape.hostByte host = true -> Shape.isPath path = true ->
  Url.getSchemeLoop i rawURL (host +:+ path) = inr (EmptyString, rawURL).
Proof.
  intros Hhost Hpath. revert i. induction host as [|c host IH]; intros i.
  - simpl. destruct path as [|c path]; [reflexivity|].
    cbn in Hpath. apply andb_true_iff in Hpath as [Hc _].
    apply Ascii.eqb_eq in Hc. subst c. reflexivity.
  - cbn in Hhost. apply andb_true_iff in Hhost as [Hc Hhost].
    destruct (hostByte_facts c Hc) as (_ & Hscheme & _).
    destruct (schemeByte_facts c Hscheme) as (Hclass & _).
    rewrite append_cons. cbn [Url.getSchemeLoop]. unfold Shape.isLetter in Hclass.
    destruct (between "a" c "z" || between "A" c "Z"); [now apply IH|].
    cbn [orb] in Hclass. rewrite Hclass.
    destruct (i =? 0)%nat; [reflexivity | now apply IH].
Qed.

(** A host and a path cut at the first slash. *)
Lemma Cut_host_path (host path : string) :
  Shape.all Shape.hostByte host = true -> Shape.isPath path = true ->
  exists after found,
    Strings.Cut (host +:+ path) "/" = (host, after, found)
    /\ (if found then String "/" after else EmptyString) = path.
Proof.
  intros Hhost Hpath. induction host as [|c host IH].
  - simpl. destruct path as [|c path]; [now exists EmptyString, false|].
    cbn in Hpath. apply andb_true_iff in Hpath as [Hc _].
    apply Ascii.eqb_eq in Hc. subst c. now exists path, true.
  - cbn in Hhost. apply andb_true_iff in Hhost as [Hc Hhost].
    destruct (hostByte_facts c Hc) as (_ & _ & _ & Hslash & _).
    destruct (IH Hhost) as (after & found & Hcut & Hpath').
    exists after, found. simpl. now rewrite Hslash, Hcut.
Qed.

Lemma parseHost_plain (host : string) :
  Shape.all Shape.hostByte host = true -> Url.parseHost host = inr host.
Proof.
  intros Hhost. unfold Url.parseHost.
  assert (Strings.HasPrefix host "[" = false) as ->.
  { destruct host as [|c host]; [reflexivity|].
    cbn [Strings.HasPrefix Shape.all] in *.
    apply andb_true_iff in Hhost as [Hc _].
    now destruct (hostByte_not_star c Hc) as (_ & _ & ->). }
  rewrite CutLast_absent.
  - now apply unescape_host.
  - apply (all_not_contains Shape.hostByte); [|assumption].
    intros c Hc. destruct (hostByte_facts c Hc) as (Hpath & _).
    apply (pathByte_facts c Hpath).
Qed.

Lemma parseAuthority_plain (host : string) :
  Shape.all Shape.hostByte host = true ->
  Url.parseAuthority host = inr (None, host).
Proof.
  intros Hhost. unfold Url.parseAuthority. rewrite CutLast_absent.
  - now rewrite parseHost_plain.
  - apply (all_not_contains Shape.hostByte); [|assumption].
    intros c Hc. destruct (hostByte_facts c Hc) as (Hpath & _).
    apply (pathByte_facts c Hpath).
Qed.

(** What a host followed by a path does not hold. *)
Lemma host_path_plain (host path : string) :
  Shape.all Shape.hostByte host = true -> Shape.isPath path = true ->
  Shape.all Shape.pathByte (host +:+ path) = true.
Proof.
  intros Hhost Hpath. rewrite all_append, (isPath_all _ Hpath), andb_true_r.
  exact (all_impl _ _ _ hostByte_pathByte Hhost).
Qed.

Lemma pathBytes_without (s : string) (x : ascii) :
  Shape.all Shape.pathByte s = true ->
  Shape.pathByte x = false -> Strings.ContainsByte s x = false.
Proof.
  intros Hs Hx. apply (all_not_contains Shape.pathByte); [|assumption].
  intros c Hc. destruct (Ascii.eqb c x) eqn:Heq; [|reflexivity].
  apply Ascii.eqb_eq in Heq. congruence.
Qed.

Lemma schemeBytes_plain (s : string) :
  Shape.all Shape.schemeByte s = true ->
  Url.stringContainsCTLByte s = false /\ Strings.ContainsByte s "#" = false.
Proof.
  induction s as [|c s IH]; [now split|].
  cbn [Shape.all Url.stringContainsCTLByte Strings.ContainsByte].
  intros Hs. apply andb_true_iff in Hs as [Hc Hs].
  destruct (schemeByte_facts c Hc) as (_ & _ & Hctl & Hhash).
  destruct (IH Hs) as [-> ->]. now rewrite Hctl, Hhash.
Qed.

(** [parse] on a scheme, a host and a path. *)
Lemma parse_plain (scheme host path : string) :
  Shape.isScheme scheme = true ->
  Shape.all Shape.hostByte host = true -> Shape.isPath path = true ->
  Url.parse (scheme +:+ String ":" ("//" +:+ host +:+ path))
  = inr (Shape.plainURL (Strings.ToLower scheme) host path).
Proof.
  intros Hscheme Hhost Hpath.
  pose proof (host_path_plain host path Hhost Hpath) as Hplain.
  destruct (isScheme_inv _ Hscheme) as (c & s & Hs & Hc & Hbytes).
  destruct (isLetter_facts c Hc) as [Hcscheme Hstar].
  unfold Url.parse.
  assert (Url.stringContainsCTLByte (scheme +:+ String ":" ("//" +:+ host +:+ path))
          = false) as ->.
  { rewrite stringContainsCTLByte_append.
    assert (Shape.all Shape.schemeByte scheme = true) as Hall
      by (subst scheme; cbn; now rewrite Hcscheme).
    rewrite (proj1 (schemeBytes_plain _ Hall)). cbn.
    now apply stringContainsCTLByte_plain. }
  assert (String.eqb (scheme +:+ String ":" ("//" +:+ host +:+ path)) "*" = false) as ->.
  { subst scheme. rewrite append_cons. cbn [String.eqb]. now rewrite Hstar. }
  rewrite (getScheme_scheme _ _ Hscheme).
  assert (Strings.ContainsByte ("//" +:+ host +:+ path) "?" = false) as Hquery.
  { cbn. now apply pathBytes_without. }
  rewrite (HasSuffixByte_absent _ _ Hquery). cbn [andb].
  rewrite (Cut_absent _ _ Hquery).
  change ("//" +:+ host +:+ path) with (String "/" (String "/" (host +:+ path))).
  cbn [Strings.HasPrefix Strings.drop Ascii.eqb Bool.eqb andb negb orb].
  assert (String.eqb (Strings.ToLower scheme) EmptyString = false) as ->
    by (subst scheme; reflexivity).
  cbn [negb orb andb].
  destruct (Cut_host_path host path Hhost Hpath) as (after & found & -> & ->).
  rewrite (parseAuthority_plain _ Hhost).
  replace (Strings.HasPrefix (host +:+ path) EmptyString) with true
    by (now destruct (host +:+ path)).
  rewrite (unescape_path _ (isPath_all _ Hpath)).
  rewrite (escape_path _ (isPath_all _ Hpath)), String.eqb_refl.
  reflexivity.
Qed.

Lemma scheme_without_hash (scheme : string) :
  Shape.isScheme scheme = true -> Strings.ContainsByte scheme "#" = false.
Proof.
  intros Hscheme. destruct (isScheme_inv _ Hscheme) as (c & s & -> & Hc & Hbytes).
  apply (schemeBytes_plain (String c s)). cbn.
  now rewrite (proj1 (isLetter_facts c Hc)).
Qed.

(** [Parse] on a scheme, a host and a path. *)
Lemma Parse_plain (scheme host path : string) :
  Shape.isScheme scheme = true ->
  Shape.all Shape.hostByte host = true -> Shape.isPath path = true ->
  Url.Parse (scheme +:+ String ":" ("//" +:+ host +:+ path))
  = inr (Shape.plainURL (Strings.ToLower scheme) host path).
Proof.
  intros Hscheme Hhost Hpath. unfold Url.Parse.
  rewrite Cut_absent.
  - now rewrite parse_plain.
  - rewrite ContainsByte_append, (scheme_without_hash _ Hscheme). cbn.
    apply pathBytes_without; [now apply host_path_plain | reflexivity].
Qed.

(** [Parse] on a host and a path alone: no scheme and no host, the whole
    string is the path. *)
Lemma Parse_host_path (host path : string) :
  host <> EmptyString ->
  Shape.all Shape.hostByte host = true -> Shape.isPath path = true ->
  Url.Parse (host +:+ path)
  = inr (Shape.plainURL EmptyString EmptyString (host +:+ path)).
Proof.
  intros Hne Hhost Hpath.
  pose proof (host_path_plain host path Hhost Hpath) as Hplain.
  unfold Url.Parse.
  rewrite Cut_absent by (apply pathBytes_without; [assumption | reflexivity]).
  unfold Url.parse. rewrite (stringContainsCTLByte_plain _ Hplain).
  unfold Url.getScheme. rewrite (getSchemeLoop_host _ _ _ _ Hhost Hpath).
  assert (Strings.ContainsByte (host +:+ path) "?" = false) as Hquery
    by (apply pathBytes_without; [assumption | reflexivity]).
  rewrite (HasSuffixByte_absent _ _ Hquery), (Cut_absent _ _ Hquery).
  cbn [andb Strings.ToLower String.eqb negb].
  destruct (Cut_host_path host path Hhost Hpath) as (after & found & Hcut & _).
  rewrite Hcut. cbn [fst].
  assert (Strings.ContainsByte host ":" = false) as ->.
  { apply (all_not_contains Shape.hostByte); [|assumption].
    intros c Hc. destruct (hostByte_facts c Hc) as (Hcpath & _).
    apply (pathByte_facts c Hcpath). }
  destruct host as [|c host]; [congruence|].
  cbn [Shape.all] in Hhost. apply andb_true_iff in Hhost as [Hc Hhost].
  destruct (hostByte_not_star c Hc) as (Hstar & Hslash & _).
  rewrite append_cons in *.
  cbn [String.eqb Strings.HasPrefix Strings.ToLower]. rewrite Hstar, Hslash.
  cbn [andb negb orb String.eqb].
  rewrite (unescape_path _ Hplain), (escape_path _ Hplain).
  rewrite ?String.eqb_refl, ?Ascii.eqb_refl.
  reflexivity.
Qed.

(** [Parse] on a scheme and, after the colon, anything that does not
    start with a slash: the rest is opaque, and there is no host. *)
Lemma Parse_opaque (scheme opaque : string) :
  Shape.isScheme scheme = true ->
  Shape.all Shape.pathByte opaque = true ->
  Strings.HasPrefix opaque "/" = false ->
  Url.Parse (scheme +:+ String ":" opaque)
  = inr (Shape.opaqueURL (Strings.ToLower scheme) opaque).
Proof.
  intros Hscheme Hopaque Hslash. unfold Url.Parse.
  rewrite Cut_absent.
  2:{ rewrite ContainsByte_append, (scheme_without_hash _ Hscheme). cbn.
      apply pathBytes_without; [assumption | reflexivity]. }
  unfold Url.parse.
  destruct (isScheme_inv _ Hscheme) as (c & s & Hs & Hc & Hbytes).
  destruct (isLetter_facts c Hc) as [Hcscheme Hstar].
  assert (Url.stringContainsCTLByte (scheme +:+ String ":" opaque) = false) as ->.
  { rewrite stringContainsCTLByte_append.
    assert (Shape.all Shape.schemeByte scheme = true) as Hall
      by (subst scheme; cbn; now rewrite Hcscheme).
    rewrite (proj1 (schemeBytes_plain _ Hall)). cbn.
    now apply stringContainsCTLByte_plain. }
  assert (String.eqb (scheme +:+ String ":" opaque) "*" = false) as ->.
  { subst scheme. rewrite append_cons. cbn [String.eqb]. now rewrite Hstar. }
  rewrite (getScheme_scheme _ _ Hscheme).
  assert (Strings.ContainsByte opaque "?" = false) as Hquery
    by (apply pathBytes_without; [assumption | reflexivity]).
  rewrite (HasSuffixByte_absent _ _ Hquery), (Cut_absent _ _ Hquery).
  cbn [andb]. rewrite Hslash.
  assert (String.eqb (Strings.ToLower scheme) EmptyString = false) as ->
    by (subst scheme; reflexivity).
  reflexivity.
Qed.

End PlainBytes.

(** * Further properties of the URL of the ingress *)

Lemma matchHere_placeholder_braces (token s : string) (n : nat) :
  Regexp.matchHere (Spec.placeholderPattern token) s = Some n ->
  Strings.HasPrefix s "{{" = true.
Proof.
  intros Hmatch.
  apply matchHere_placeholder_sound in Hmatch as (m & rest & -> & Hm & _).
  destruct Hm as (w1 & w2 & _ & _ & ->).
  change ("{{" +:+ w1 +:+ "$" +:+ token +:+ w2 +:+ "}}")
    with (String "{" (String "{" (w1 +:+ "$" +:+ token +:+ w2 +:+ "}}"))).
  rewrite !append_cons. cbn [Strings.HasPrefix Ascii.eqb Bool.eqb andb].
  now destruct (_ +:+ rest).
Qed.

(** A string without two opening braces in a row is left as it is. *)
Lemma replaceAll_without_braces (token : string) (repl : string -> string)
    (s : string) :
  Strings.Contains s "{{" = false ->
  Regexp.replaceAll (Spec.placeholderPattern token) repl O s = s.
Proof.
  induction s as [|c s IH]; [reflexivity|].
  intros H. change (Strings.Contains (String c s) "{{")
    with (Strings.HasPrefix (String c s) "{{" || Strings.Contains s "{{") in H. apply orb_false_iff in H as [Hhere Hlater].
  cbn [Regexp.replaceAll].
  destruct (Regexp.matchHere (Spec.placeholderPattern token) (String c s))
    as [n|] eqn:Hmatch.
  - apply matchHere_placeholder_braces in Hmatch. congruence.
  - now rewrite (IH Hlater).
Qed.

(** X10. A format without two opening braces in a row is parsed as it
    is written, whatever the name and the namespace are. *)
Theorem getSparkUIingressURL_without_placeholder (unicodeNameRune : string -> nat)
    (ingressURLFormat appName appNamespace : string) :
  Strings.Contains ingressURLFormat "{{" = false ->
  templatedURL unicodeNameRune ingressURLFormat appName appNamespace
  = ingressURLFormat
  /\ getSparkUIingressURL unicodeNameRune ingressURLFormat appName appNamespace
     = Spec.parseWithDefaultScheme ingressURLFormat.
Proof.
  intros Hplain.
  assert (templatedURL unicodeNameRune ingressURLFormat appName appNamespace
          = ingressURLFormat) as Htemplated.
  { unfold templatedURL, Regexp.ReplaceAllString.
    rewrite ingressAppNameURLRegex_compiles, ingressAppNamespaceURLRegex_compiles.
    rewrite (replaceAll_without_braces "appName" _ _ Hplain).
    exact (replaceAll_without_braces "appNamespace" _ _ Hplain). }
  split; [exact Htemplated|].
  now rewrite getSparkUIingressURL_parses, Htemplated.
Qed.

Lemma getSparkUIingressURL_without_placeholder_witness :
  templatedURL (fun _ => O) "spark.example.com/ui" "job$1" "ns1"
  = "spark.example.com/ui".
Proof.
  exact (proj1 (getSparkUIingressURL_without_placeholder (fun _ => O)
                  "spark.example.com/ui" "job$1" "ns1" eq_refl)).
Defined.

Lemma Parse_error (rawURL : string) (err : error) :
  Url.Parse rawURL = inl err -> exists text cause, err = urlError "parse" text cause.
Proof.
  unfold Url.Parse. destruct (Strings.Cut rawURL "#") as [[u frag] found].
  destruct (Url.parse u) as [cause|url]; [intros [= <-]; now eexists _, _|].
  destruct (String.eqb frag EmptyString); [discriminate|].
  destruct (Url.setFragment url frag) as [cause|url']; [|discriminate].
  intros [= <-]. now eexists _, _.
Qed.

(** X11. Every error of [getSparkUIingressURL] is a [*url.Error] of the
    operation [parse]. A templated string with an ASCII control byte
    (below 0x20, or 0x7f) before its first [#] is such an error: its text
    is the string up to the [#] and its cause names the control
    character. *)
Theorem getSparkUIingressURL_errors (unicodeNameRune : string -> nat)
    (ingressURLFormat appName appNamespace : string) :
  let templated :=
    templatedURL unicodeNameRune ingressURLFormat appName appNamespace in
  (forall err,
     getSparkUIingressURL unicodeNameRune ingressURLFormat appName appNamespace
     = inl err ->
     exists text cause, err = urlError "parse" text cause)
  /\ (Url.stringContainsCTLByte (Strings.Cut templated "#").1.1 = true ->
      getSparkUIingressURL unicodeNameRune ingressURLFormat appName appNamespace
      = inl (urlError "parse" (Strings.Cut templated "#").1.1
               (errorString "net/url: invalid control character in URL"))).
Proof.
  intros templated. split.
  - intros err. unfold getSparkUIingressURL. fold templated.
    destruct (Url.Parse templated) as [e|parsed] eqn:Hfirst.
    + intros [= <-]. exact (Parse_error _ _ Hfirst).
    + destruct (String.eqb (Url.Scheme parsed) EmptyString); [|discriminate].
      destruct (Url.Parse ("http://" +:+ templated)) as [e|again] eqn:Hsecond;
        [|discriminate].
      intros [= <-]. exact (Parse_error _ _ Hsecond).
  - intros Hctl. unfold getSparkUIingressURL. fold templated.
    unfold Url.Parse at 1.
    destruct (Strings.Cut templated "#") as [[u frag] found]. cbn [fst] in *.
    unfold Url.parse. now rewrite Hctl.
Qed.

Lemma getSparkUIingressURL_errors_witness :
  getSparkUIingressURL (fun _ => O)
    (String (ascii_of_nat 9) "{{$appName}}.example.com") "job1" "ns1"
  = inl (urlError "parse" (String (ascii_of_nat 9) "job1.example.com")
           (errorString "net/url: invalid control character in URL")).
Proof.
  refine (proj2 (getSparkUIingressURL_errors (fun _ => O)
                   (String (ascii_of_nat 9) "{{$appName}}.example.com")
                   "job1" "ns1") _).
  vm_compute. reflexivity.
Defined.

(** X12. A templated string that is a host and a path (letters, digits,
    [-] and [.] in the host; nothing, or a slash followed by letters,
    digits, [-], [_], [.], [~] and [/], in the path) gives the URL with
    the scheme [http], that host and that path, and nothing else. *)
Theorem getSparkUIingressURL_host_path (unicodeNameRune : string -> nat)
    (ingressURLFormat appName appNamespace host path : string) :
  templatedURL unicodeNameRune ingressURLFormat appName appNamespace
  = host +:+ path ->
  host <> EmptyString ->
  Shape.all Shape.hostByte host = true -> Shape.isPath path = true ->
  getSparkUIingressURL unicodeNameRune ingressURLFormat appName appNamespace
  = inr (Shape.plainURL "http" host path).
Proof.
  intros Htemplated Hne Hhost Hpath.
  rewrite getSparkUIingressURL_parses, Htemplated.
  unfold Spec.parseWithDefaultScheme.
  rewrite (Parse_host_path host path Hne Hhost Hpath). cbn [Shape.plainURL Url.Scheme].
  change (String.eqb EmptyString EmptyString) with true. cbv iota.
  exact (Parse_plain "http" host path eq_refl Hhost Hpath).
Qed.

Lemma getSparkUIingressURL_host_path_witness :
  getSparkUIingressURL (fun _ => O) "{{$appName}}.{{ $appNamespace }}.example.com/ui"
    "job1" "ns1"
  = inr (Shape.plainURL "http" "job1.ns1.example.com" "/ui").
Proof.
  apply (getSparkUIingressURL_host_path (fun _ => O)
           "{{$appName}}.{{ $appNamespace }}.example.com/ui" "job1" "ns1"
           "job1.ns1.example.com" "/ui");
    [vm_compute; reflexivity | discriminate | reflexivity | reflexivity].
Defined.

(** X13. A templated string that is a scheme (a letter, then letters,
    digits, [+], [-] and [.]), [://], a host and a path gives the URL
    with that scheme in lower case, that host and that path, and nothing
    else. *)
Theorem getSparkUIingressURL_scheme_host_path (unicodeNameRune : string -> nat)
    (ingressURLFormat appName appNamespace scheme host path : string) :
  templatedURL unicodeNameRune ingressURLFormat appName appNamespace
  = scheme +:+ "://" +:+ host +:+ path ->
  Shape.isScheme scheme = true ->
  Shape.all Shape.hostByte host = true -> Shape.isPath path = true ->
  getSparkUIingressURL unicodeNameRune ingressURLFormat appName appNamespace
  = inr (Shape.plainURL (Strings.ToLower scheme) host path).
Proof.
  intros Htemplated Hscheme Hhost Hpath.
  rewrite getSparkUIingressURL_parses, Htemplated.
  unfold Spec.parseWithDefaultScheme.
  change (scheme +:+ "://" +:+ host +:+ path)
    with (scheme +:+ String ":" ("//" +:+ host +:+ path)).
  rewrite (Parse_plain scheme host path Hscheme Hhost Hpath).
  cbn [Shape.plainURL Url.Scheme].
  destruct scheme as [|c scheme]; [discriminate|]. reflexivity.
Qed.

Lemma getSparkUIingressURL_scheme_host_path_witness :
  getSparkUIingressURL (fun _ => O) "HTTPS://{{$appName}}.example.com/ui/"
    "job1" "ns1"
  = inr (Shape.plainURL "https" "job1.example.com" "/ui/").
Proof.
  apply (getSparkUIingressURL_scheme_host_path (fun _ => O)
           "HTTPS://{{$appName}}.example.com/ui/" "job1" "ns1"
           "HTTPS" "job1.example.com" "/ui/");
    [vm_compute; reflexivity | reflexivity | reflexivity | reflexivity].
Defined.

(** X14. A templated string without [://] whose host is followed by a
    colon is read as a scheme: when the text before the first colon is a
    letter followed by letters, digits, [+], [-] and [.], and the text
    after it does not start with a slash, the URL has that text before
    the colon as its scheme, in lower case, and the text after it as its
    opaque part; it has no host and no path, and [http://] is not put in
    front. *)
Theorem getSparkUIingressURL_host_port (unicodeNameRune : string -> nat)
    (ingressURLFormat appName appNamespace host rest : string) :
  templatedURL unicodeNameRune ingressURLFormat appName appNamespace
  = host +:+ ":" +:+ rest ->
  Shape.isScheme host = true ->
  Shape.all Shape.pathByte rest = true ->
  Strings.HasPrefix rest "/" = false ->
  getSparkUIingressURL unicodeNameRune ingressURLFormat appName appNamespace
  = inr (Shape.opaqueURL (Strings.ToLower host) rest)
  /\ Url.Host (Shape.opaqueURL (Strings.ToLower host) rest) = EmptyString.
Proof.
  intros Htemplated Hhost Hrest Hslash. split; [|reflexivity].
  rewrite getSparkUIingressURL_parses, Htemplated.
  unfold Spec.parseWithDefaultScheme.
  change (host +:+ ":" +:+ rest) with (host +:+ String ":" rest).
  rewrite (Parse_opaque host rest Hhost Hrest Hslash).
  cbn [Shape.opaqueURL Url.Scheme].
  destruct host as [|c host]; [discriminate|]. reflexivity.
Qed.

Lemma getSparkUIingressURL_host_port_witness :
  getSparkUIingressURL (fun _ => O) "{{$appName}}.example.com:8080/ui" "job1" "ns1"
  = inr (Shape.opaqueURL "job1.example.com" "8080/ui").
Proof.
  apply (getSparkUIingressURL_host_port (fun _ => O)
           "{{$appName}}.example.com:8080/ui" "job1" "ns1"
           "job1.example.com" "8080/ui");
    [vm_compute; reflexivity | reflexivity | reflexivity | reflexivity].
Defined.
